(** * weectl station: the argument layer of the "station" subcommand

    A shallow embedding of [bin/weectl/parse_station.py].  The module builds
    an [argparse] parser for [weectl station {create, reconfigure, upgrade,
    upgrade-skins}] and defines the two handlers [create_station] and
    [reconfigure_station], which forward the parsed namespace to the
    configuration engine ([weecfg.station_config]).

    The part of Python's [argparse] that these parsers exercise is embedded
    too, after the sources of CPython 3.11: option recognition with
    abbreviations, the explicit [--opt=value] form, the removal of an
    argument that is [--], [type], [choices], defaults, sub-parsers.
    Strings are the byte strings of the command line, which Python reads
    as UTF-8; the one place where characters beyond ASCII matter is the
    digits of a negative number, which are the decimal digits of Unicode
    14.0.  The namespace is a finite map from attribute names to Python
    values.

    One assumption on what lies outside the module: the enclosing [weectl]
    parser hands the strings that follow [station] to the [station] parser
    unchanged. *)

From Stdlib Require Import String Ascii List Bool ZArith Lia.
From stdpp Require Import gmap strings.
Import ListNotations.
Open Scope string_scope.
Open Scope list_scope.

(** ** Python strings *)

Module Str.

Definition dash : ascii := "-"%char.
Definition newline : ascii := "010"%char.

(** [c in s] for a one-character [c]. *)
Fixpoint contains (c : ascii) (s : string) : bool :=
  match s with
  | EmptyString => false
  | String c' s' => if Ascii.eqb c c' then true else contains c s'
  end.

(** [s.split('=', 1)] when ['=' in s]: the text before the first ['='] and
    the text after it. *)
Fixpoint split_eq (s : string) : option (string * string) :=
  match s with
  | EmptyString => None
  | String c s' =>
      if Ascii.eqb c "="%char then Some (EmptyString, s')
      else match split_eq s' with
           | Some (l, r) => Some (String c l, r)
           | None => None
           end
  end.

(** [s.startswith(prefix)] *)
Definition startswith (s prefix : string) : bool := String.prefix prefix s.

(** [s.replace('-', '_')] *)
Fixpoint dash_to_underscore (s : string) : string :=
  match s with
  | EmptyString => EmptyString
  | String c s' =>
      String (if Ascii.eqb c dash then "_"%char else c) (dash_to_underscore s')
  end.

(** [s.lstrip('-')] *)
Fixpoint lstrip_dash (s : string) : string :=
  match s with
  | String c s' => if Ascii.eqb c dash then lstrip_dash s' else s
  | EmptyString => EmptyString
  end.

(** The bytes of a string are those of the command line, which Python
    reads as UTF-8.  [utf8_head s] is the code point of the character at
    the head of [s] and the number of bytes it takes: one for ASCII, two to
    four for a well-formed sequence (no overlong form, no surrogate,
    nothing above U+10FFFF).  A byte that starts no such sequence is a
    character of its own for Python (an escape in U+DC80..U+DCFF): it has
    no code point here. *)
Definition continuation (s : string) : option (N * string) :=
  match s with
  | String b s' =>
      let n := N_of_ascii b in
      if ((128 <=? n) && (n <? 192))%N then Some ((n - 128)%N, s') else None
  | EmptyString => None
  end.

Definition utf8_head (s : string) : option (N * nat) :=
  match s with
  | EmptyString => None
  | String b0 s1 =>
      let n0 := N_of_ascii b0 in
      if (n0 <? 128)%N then Some (n0, 1%nat)
      else if (n0 <? 194)%N then None
      else if (n0 <? 224)%N then
        match continuation s1 with
        | Some (c1, _) => Some (((n0 - 192) * 64 + c1)%N, 2%nat)
        | None => None
        end
      else if (n0 <? 240)%N then
        match continuation s1 with
        | Some (c1, s2) =>
            match continuation s2 with
            | Some (c2, _) =>
                let cp := ((n0 - 224) * 4096 + c1 * 64 + c2)%N in
                if ((2048 <=? cp) && negb ((55296 <=? cp) && (cp <? 57344)))%N
                then Some (cp, 3%nat) else None
            | None => None
            end
        | None => None
        end
      else if (n0 <? 245)%N then
        match continuation s1 with
        | Some (c1, s2) =>
            match continuation s2 with
            | Some (c2, s3) =>
                match continuation s3 with
                | Some (c3, _) =>
                    let cp :=
                      ((n0 - 240) * 262144 + c1 * 4096 + c2 * 64 + c3)%N in
                    if ((65536 <=? cp) && (cp <? 1114112))%N
                    then Some (cp, 4%nat) else None
                | None => None
                end
            | None => None
            end
        | None => None
        end
      else None
  end.

(** The decimal digits of Unicode 14.0 (general category Nd), the
    characters that [\d] matches in CPython 3.11: each code point listed
    is the digit zero of a script, followed by its digits one to nine. *)
Definition decimal_zeros : list N :=
  [ 0x30; 0x660; 0x6f0; 0x7c0; 0x966; 0x9e6; 0xa66; 0xae6; 0xb66; 0xbe6;
    0xc66; 0xce6; 0xd66; 0xde6; 0xe50; 0xed0; 0xf20; 0x1040; 0x1090;
    0x17e0; 0x1810; 0x1946; 0x19d0; 0x1a80; 0x1a90; 0x1b50; 0x1bb0;
    0x1c40; 0x1c50; 0xa620; 0xa8d0; 0xa900; 0xa9d0; 0xa9f0; 0xaa50;
    0xabf0; 0xff10; 0x104a0; 0x10d30; 0x11066; 0x110f0; 0x11136; 0x111d0;
    0x112f0; 0x11450; 0x114d0; 0x11650; 0x116c0; 0x11730; 0x118e0;
    0x11950; 0x11c50; 0x11d50; 0x11da0; 0x16a60; 0x16ac0; 0x16b50;
    0x1d7ce; 0x1d7d8; 0x1d7e2; 0x1d7ec; 0x1d7f6; 0x1e140; 0x1e2f0;
    0x1e950; 0x1fbf0 ]%N.

Definition is_decimal (cp : N) : bool :=
  existsb (fun zero => ((zero <=? cp) && (cp <? zero + 10))%N) decimal_zeros.

(** The number of bytes of the decimal digit at the head of a string, [0]
    when the string does not start with one. *)
Definition digit_length (s : string) : nat :=
  match utf8_head s with
  | Some (cp, n) => if is_decimal cp then n else 0%nat
  | None => 0%nat
  end.

(** [\d*]: the string after its leading digits.  [inside] counts the
    bytes still to drop of the digit being read. *)
Fixpoint drop_digits_from (inside : nat) (s : string) : string :=
  match s with
  | EmptyString => EmptyString
  | String _ s' =>
      match inside with
      | S n => drop_digits_from n s'
      | O =>
          match digit_length s with
          | S n => drop_digits_from n s'
          | O => s
          end
      end
  end.

Definition drop_digits (s : string) : string := drop_digits_from 0 s.

(** The regular expression anchor [$]: the end of the string, or just
    before a newline that ends the string. *)
Definition at_end (s : string) : bool :=
  match s with
  | EmptyString => true
  | String c EmptyString => Ascii.eqb c newline
  | _ => false
  end.

(** [\d+$] *)
Definition digits_then_end (s : string) : bool :=
  match digit_length s with
  | S _ => at_end (drop_digits s)
  | O => false
  end.

(** [re.match(r'^-\d+$|^-\d*\.\d+$', s)], argparse's
    [_negative_number_matcher]. *)
Definition negative_number (s : string) : bool :=
  match s with
  | String c r =>
      Ascii.eqb c dash &&
      (digits_then_end r ||
       match drop_digits r with
       | String d r' => Ascii.eqb d "."%char && digits_then_end r'
       | EmptyString => false
       end)
  | EmptyString => false
  end.

(** [bool(s)] for a string: the empty string is falsy, every other one
    truthy. *)
Definition truthy (s : string) : bool :=
  match s with
  | EmptyString => false
  | String _ _ => true
  end.

End Str.

(** ** Python values held by a namespace *)

(** The two handler functions of the module, as function objects. *)
Inductive handler : Type :=
| create_station_fn
| reconfigure_station_fn.

(** The values a namespace of the module can hold.  The one list that the
    parsers store is the empty one. *)
Inductive pyval : Type :=
| PyNone
| PyStr (s : string)
| PyBool (b : bool)
| PyFunc (f : handler)
| PyEmptyList.

#[global] Instance handler_eq_dec : EqDecision handler.
Proof. solve_decision. Defined.

#[global] Instance pyval_eq_dec : EqDecision pyval.
Proof. solve_decision. Defined.

(** [argparse.Namespace]: an object whose attributes are set by name. *)
Abbreviation Namespace := (gmap string pyval).

(** ** argparse actions and parsers *)

Module Argparse.

(** The [type=] converters used by the module: none (the string is kept)
    and [bool]. *)
Inductive arg_type : Type :=
| type_none
| type_bool.

(** [_StoreAction] with [nargs=None] (exactly one argument), and
    [_HelpAction] with [nargs=0] and [default=SUPPRESS]. *)
Inductive action_class : Type :=
| StoreAction
| HelpAction.

Record Action : Type := mkAction {
  cls : action_class;
  option_strings : list string;
  dest : string;
  type : arg_type;
  choices : option (list string)
}.

(** [ArgumentParser.add_argument(flag, dest=..., type=..., choices=...)]
    for a single long option string.  Without [dest], the destination is
    the flag without its leading dashes and with ['-'] replaced by ['_']. *)
Definition add_argument (flag : string) (dest : option string)
    (type : arg_type) (choices : option (list string)) : Action :=
  {| cls := StoreAction;
     option_strings := [flag];
     dest := match dest with
             | Some d => d
             | None => Str.dash_to_underscore (Str.lstrip_dash flag)
             end;
     type := type;
     choices := choices |}.

(** The [-h]/[--help] action every parser gets ([add_help=True]). *)
Definition help_action : Action :=
  {| cls := HelpAction;
     option_strings := ["-h"; "--help"];
     dest := "help";
     type := type_none;
     choices := None |}.

(** A parser without positional arguments: its actions in the order they
    were added, and the defaults given with [set_defaults]. *)
Record Parser : Type := mkParser {
  actions : list Action;
  defaults : list (string * pyval)
}.

(** [parser._option_string_actions], in insertion order. *)
Definition option_string_actions (p : Parser) : list (string * Action) :=
  flat_map (fun a => map (fun o => (o, a)) (option_strings a)) (actions p).

Fixpoint lookup_option (tbl : list (string * Action)) (o : string)
    : option Action :=
  match tbl with
  | [] => None
  | (o', a) :: tbl' => if String.eqb o o' then Some a else lookup_option tbl' o
  end.

(** Why a parser stops with an error (exit status 2). *)
Inductive error : Type :=
| ambiguous_option (arg : string)
| expected_one_argument (a : Action)
| ignored_explicit_argument (a : Action)
| invalid_choice (a : Action) (value : string)
| unrecognized_arguments (extras : list string).

(** The result of [_parse_optional]: [None] (a positional), an option
    tuple [(action, option_string, explicit_arg)] whose action is [None]
    for an option the parser does not know, or the ambiguity error. *)
Inductive optional : Type :=
| Positional
| OptionTuple (a : option Action) (option_string : string)
    (explicit_arg : option string)
| Ambiguous.

(** [_get_option_tuples] *)
Definition get_option_tuples (p : Parser) (option_string : string)
    : list (Action * string * option string) :=
  match option_string with
  | String c0 (String c1 _) =>
      if Ascii.eqb c1 Str.dash then
        (* two prefix characters: abbreviations, split at the '=' *)
        let '(option_prefix, explicit_arg) :=
          match Str.split_eq option_string with
          | Some (l, r) => (l, Some r)
          | None => (option_string, None)
          end in
        flat_map (fun '(o, a) =>
                    if Str.startswith o option_prefix
                    then [(a, o, explicit_arg)] else [])
                 (option_string_actions p)
      else
        (* a single-character option glued to its argument *)
        let short_option_prefix := String c0 (String c1 EmptyString) in
        let short_explicit_arg :=
          match option_string with
          | String _ (String _ r) => r
          | _ => EmptyString
          end in
        flat_map (fun '(o, a) =>
                    if String.eqb o short_option_prefix
                    then [(a, o, Some short_explicit_arg)]
                    else if Str.startswith o option_string
                    then [(a, o, None)] else [])
                 (option_string_actions p)
  | _ => []
  end.

(** [_parse_optional] *)
Definition parse_optional (p : Parser) (arg_string : string) : optional :=
  match arg_string with
  | EmptyString => Positional
  | String c0 rest =>
      if negb (Ascii.eqb c0 Str.dash) then Positional
      else
        match lookup_option (option_string_actions p) arg_string with
        | Some a => OptionTuple (Some a) arg_string None
        | None =>
            match rest with
            | EmptyString => Positional
            | _ =>
                let exact :=
                  match Str.split_eq arg_string with
                  | Some (o, explicit_arg) =>
                      match lookup_option (option_string_actions p) o with
                      | Some a => Some (OptionTuple (Some a) o (Some explicit_arg))
                      | None => None
                      end
                  | None => None
                  end in
                match exact with
                | Some r => r
                | None =>
                    match get_option_tuples p arg_string with
                    | _ :: _ :: _ => Ambiguous
                    | [(a, o, e)] => OptionTuple (Some a) o e
                    | [] =>
                        if Str.negative_number arg_string then Positional
                        else if Str.contains " "%char arg_string then Positional
                        else OptionTuple None arg_string None
                    end
                end
            end
        end
  end.

(** The pattern letter of one argument string: ['A'] for an argument,
    ['-'] for the string ['--'], ['O'] (with its option tuple) for an
    option. *)
Inductive arg_class : Type :=
| ClsA
| ClsDashes
| ClsO (a : option Action) (option_string : string)
    (explicit_arg : option string).

(** How a parser run ends: normally, with [parser.error] (usage and
    message on stderr, exit status 2), or in the help action (help text on
    stdout, exit status 0). *)
Inductive outcome (A : Type) : Type :=
| Ok (x : A)
| Error (e : error)
| HelpExit.
Arguments Ok {A} x.
Arguments Error {A} e.
Arguments HelpExit {A}.

#[global] Instance outcome_bind : MBind outcome := fun A B f m =>
  match m with
  | Ok x => f x
  | Error e => Error e
  | HelpExit => HelpExit
  end.

(** The first loop of [_parse_known_args]: every string before a ['--']
    goes through [_parse_optional]; the strings after it are arguments. *)
Fixpoint classify (p : Parser) (arg_strings : list string)
    : outcome (list (string * arg_class)) :=
  match arg_strings with
  | [] => Ok []
  | s :: rest =>
      if String.eqb s "--"
      then Ok ((s, ClsDashes) :: map (fun s' => (s', ClsA)) rest)
      else
        match parse_optional p s with
        | Ambiguous => Error (ambiguous_option s)
        | Positional =>
            items ← classify p rest; Ok ((s, ClsA) :: items)
        | OptionTuple a o e =>
            items ← classify p rest; Ok ((s, ClsO a o e) :: items)
        end
  end.

(** [_get_value]: the [type] conversion of one argument string.  Neither
    converter can fail. *)
Definition get_value (a : Action) (arg_string : string) : pyval :=
  match type a with
  | type_none => PyStr arg_string
  | type_bool => PyBool (Str.truthy arg_string)
  end.

(** [value in action.choices], the choices being strings. *)
Definition value_in (v : pyval) (l : list string) : bool :=
  match v with
  | PyStr s => existsb (String.eqb s) l
  | _ => false
  end.

(** [_check_value] *)
Definition check_value (a : Action) (v : pyval) : bool :=
  match choices a with
  | None => true
  | Some l => value_in v l
  end.

Definition setattr (ns : Namespace) (name : string) (v : pyval) : Namespace :=
  <[name := v]> ns.

(** [_get_values] for a store action ([nargs=None]) and the one argument
    string it receives.  The first ['--'] among the argument strings is
    removed ([arg_strings.remove('--')]): an argument that is ['--'] leaves
    no string, and the value is the empty list, which is neither converted
    nor checked.  Any other argument is converted by [_get_value] and
    checked by [_check_value]. *)
Definition get_values (a : Action) (arg_string : string) : error + pyval :=
  if String.eqb arg_string "--" then inr PyEmptyList
  else
    let value := get_value a arg_string in
    if check_value a value then inr value
    else inl (invalid_choice a arg_string).

(** [take_action]: get the values of the argument, then call the action.
    A store action always receives one string here; the help action prints
    the help and exits. *)
Definition take_action (a : Action) (arg : option string) (ns : Namespace)
    : outcome Namespace :=
  match cls a, arg with
  | HelpAction, _ => HelpExit
  | StoreAction, Some s =>
      match get_values a s with
      | inr v => Ok (setattr ns (dest a) v)
      | inl e => Error e
      end
  | StoreAction, None => Error (expected_one_argument a)
  end.

Fixpoint take_actions (tuples : list (Action * option string))
    (ns : Namespace) : outcome Namespace :=
  match tuples with
  | [] => Ok ns
  | (a, arg) :: tuples' =>
      ns' ← take_action a arg ns; take_actions tuples' ns'
  end.

(** The loop of [consume_optional] on an explicit argument
    ([--opt=value], or the tail glued to a single-dash option).  The
    result is the action tuples collected so far and, when the explicit
    argument is used up by single-dash options, the action that takes its
    arguments from the following strings. *)
Fixpoint explicit_loop (p : Parser) (a : Action) (option_string : string)
    (explicit_arg : string)
    : error + (list (Action * option string) * option Action) :=
  match cls a with
  | StoreAction => inr ([(a, Some explicit_arg)], None)
  | HelpAction =>
      match option_string, explicit_arg with
      | String c0 (String c1 _), String e0 explicit_arg' =>
          if Ascii.eqb c1 Str.dash then inl (ignored_explicit_argument a)
          else
            let option_string' := String c0 (String e0 EmptyString) in
            match lookup_option (option_string_actions p) option_string' with
            | None => inl (ignored_explicit_argument a)
            | Some a' =>
                match explicit_arg' with
                | EmptyString => inr ([(a, None)], Some a')
                | _ =>
                    match explicit_loop p a' option_string' explicit_arg' with
                    | inl e => inl e
                    | inr (tuples, last) => inr ((a, None) :: tuples, last)
                    end
                end
            end
      | _, _ => inl (ignored_explicit_argument a)
      end
  end.

(** The main loop of [_parse_known_args] for a parser without
    positionals: strings that are not options are extras, an unknown
    option is an extra, a known option takes its explicit argument or the
    next string when that one is an argument. *)
Fixpoint consume (p : Parser) (items : list (string * arg_class))
    (ns : Namespace) (extras : list string)
    : outcome (Namespace * list string) :=
  match items with
  | [] => Ok (ns, extras)
  | (s, ClsO (Some a) o e) :: rest =>
      match
        match e with
        | Some explicit_arg => explicit_loop p a o explicit_arg
        | None => inr ([], Some a)
        end
      with
      | inl err => Error err
      | inr (tuples, None) =>
          ns' ← take_actions tuples ns; consume p rest ns' extras
      | inr (tuples, Some a') =>
          match cls a' with
          | HelpAction =>
              ns' ← take_actions (tuples ++ [(a', None)]) ns;
              consume p rest ns' extras
          | StoreAction =>
              match rest with
              | (v, ClsA) :: rest' =>
                  ns' ← take_actions (tuples ++ [(a', Some v)]) ns;
                  consume p rest' ns' extras
              | _ => Error (expected_one_argument a')
              end
          end
      end
  | (s, _) :: rest => consume p rest ns (extras ++ [s])
  end.

Definition hasattr (ns : Namespace) (name : string) : bool :=
  bool_decide (is_Some (ns !! name)).

Definition setdefault (ns : Namespace) (name : string) (v : pyval) : Namespace :=
  if hasattr ns name then ns else setattr ns name v.

(** The start of [parse_known_args]: a fresh namespace gets the default
    ([None]) of every action that has one, then the parser defaults. *)
Definition action_defaults (p : Parser) (ns : Namespace) : Namespace :=
  fold_left (fun ns a =>
               match cls a with
               | StoreAction => setdefault ns (dest a) PyNone
               | HelpAction => ns
               end) (actions p) ns.

Definition parser_defaults (p : Parser) (ns : Namespace) : Namespace :=
  fold_left (fun ns '(d, v) => setdefault ns d v) (defaults p) ns.

Definition initial_namespace (p : Parser) : Namespace :=
  parser_defaults p (action_defaults p ∅).

(** [parser.parse_known_args(arg_strings)] for a parser without
    positionals: the namespace and the unrecognized strings. *)
Definition parse_known_args (p : Parser) (arg_strings : list string)
    : outcome (Namespace * list string) :=
  items ← classify p arg_strings;
  consume p items (initial_namespace p) [].

(** A [_SubParsersAction]: its destination and its parsers by name. *)
Record SubParsers : Type := mkSubParsers {
  sub_dest : string;
  name_parser_map : list (string * Parser)
}.

Fixpoint lookup_parser (m : list (string * Parser)) (name : string)
    : option Parser :=
  match m with
  | [] => None
  | (n, p) :: m' => if String.eqb name n then Some p else lookup_parser m' name
  end.

(** [_SubParsersAction.__call__], after [_get_values] checked the parser
    name against the choices: record the name, run the chosen parser on
    the remaining strings, copy its attributes over the namespace and hand
    its extras up. *)
Definition call_subparsers (sub : SubParsers)
    (parser_name : string) (arg_strings : list string) (ns : Namespace)
    : outcome (Namespace * list string) :=
  match lookup_parser (name_parser_map sub) parser_name with
  | None =>
      Error (invalid_choice
               {| cls := StoreAction; option_strings := [];
                  dest := sub_dest sub; type := type_none;
                  choices := Some (map fst (name_parser_map sub)) |}
               parser_name)
  | Some parser =>
      '(subnamespace, extras) ← parse_known_args parser arg_strings;
      Ok (subnamespace ∪ setattr ns (sub_dest sub) (PyStr parser_name), extras)
  end.

(** The main loop of [_parse_known_args] for a parser whose only
    positional is a sub-parsers action ([nargs=PARSER]): options before
    the parser name are consumed (or are extras), the first argument
    string and everything after it go to the sub-parsers action. *)
Fixpoint consume_sub (p : Parser) (sub : SubParsers)
    (items : list (string * arg_class)) (ns : Namespace)
    (extras : list string) : outcome (Namespace * list string) :=
  match items with
  | [] => Ok (ns, extras)
  | (s, ClsO (Some a) o e) :: rest =>
      match
        match e with
        | Some explicit_arg => explicit_loop p a o explicit_arg
        | None => inr ([], Some a)
        end
      with
      | inl err => Error err
      | inr (tuples, None) =>
          ns' ← take_actions tuples ns; consume_sub p sub rest ns' extras
      | inr (tuples, Some a') =>
          match cls a' with
          | HelpAction =>
              ns' ← take_actions (tuples ++ [(a', None)]) ns;
              consume_sub p sub rest ns' extras
          | StoreAction =>
              match rest with
              | (v, ClsA) :: rest' =>
                  ns' ← take_actions (tuples ++ [(a', Some v)]) ns;
                  consume_sub p sub rest' ns' extras
              | _ => Error (expected_one_argument a')
              end
          end
      end
  | (s, ClsO None _ _) :: rest => consume_sub p sub rest ns (extras ++ [s])
  | (s, ClsA) :: rest =>
      '(ns', extras') ← call_subparsers sub s (map fst rest) ns;
      Ok (ns', extras ++ extras')
  | (s, ClsDashes) :: rest =>
      match rest with
      | [] => Ok (ns, extras ++ [s])
      | _ => '(ns', extras') ← call_subparsers sub s (map fst rest) ns;
             Ok (ns', extras ++ extras')
      end
  end.

(** [parse_known_args] of a parser with a sub-parsers action. *)
Definition parse_known_args_sub (p : Parser) (sub : SubParsers)
    (arg_strings : list string) : outcome (Namespace * list string) :=
  items ← classify p arg_strings;
  consume_sub p sub items
    (parser_defaults p (setdefault (action_defaults p ∅) (sub_dest sub) PyNone)) [].

(** [parse_args]: unrecognized strings are an error. *)
Definition no_extras (r : outcome (Namespace * list string))
    : outcome Namespace :=
  '(ns, extras) ← r;
  match extras with
  | [] => Ok ns
  | _ => Error (unrecognized_arguments extras)
  end.

End Argparse.

(** ** The configuration engine, as the handlers see it *)

(** The engine ([weecfg.station_config]) is not part of this module: it is a
    parameter of the handlers.  A call is the entry point and its keyword
    arguments in the order they are written; it returns, or raises. *)

Inductive entry_point : Type :=
| weecfg_create_station
| weecfg_reconfigure_station.

Record engine_call : Type := mkCall {
  entry : entry_point;
  kwargs : list (string * pyval)
}.

(** A raised exception: an instance of [weewx.ViolatedPrecondition] (or of a
    subclass), or an instance of any other class, named.  Both carry the
    text that [str(e)] gives. *)
Inductive exception : Type :=
| ViolatedPrecondition (message : string)
| OtherException (class_name : string) (message : string).

Definition str (e : exception) : string :=
  match e with
  | ViolatedPrecondition m => m
  | OtherException _ m => m
  end.

Inductive engine_result : Type :=
| Returns
| Raises (e : exception).

#[global] Instance entry_point_eq_dec : EqDecision entry_point.
Proof. solve_decision. Defined.

#[global] Instance exception_eq_dec : EqDecision exception.
Proof. solve_decision. Defined.

(** Evaluating Python code that can raise. *)
Inductive py (A : Type) : Type :=
| Val (x : A)
| Exc (e : exception).
Arguments Val {A} x.
Arguments Exc {A} e.

#[global] Instance py_bind : MBind py := fun A B f m =>
  match m with
  | Val x => f x
  | Exc e => Exc e
  end.

(** [namespace.name]: the attribute, or [AttributeError]. *)
Definition getattr (namespace : Namespace) (name : string) : py pyval :=
  match namespace !! name with
  | Some v => Val v
  | None => Exc (OtherException "AttributeError" name)
  end.

(** How a handler ends: it returns [None], it raises [SystemExit(code)]
    through [sys.exit(code)], or an exception leaves it. *)
Inductive completion : Type :=
| Returned
| SystemExit (code : exception)
| Raised (e : exception).

(** What the interpreter does with a [SystemExit] whose code is an object
    that is neither [None] nor an integer: it prints [str(code)] on stderr
    and the exit status is 1. *)
Definition exit_status (code : exception) : Z := 1.
Definition exit_stderr (code : exception) : list string := [str code].

(** A handler run: the engine calls it made, what it wrote itself, and how
    it ended. *)
Record run : Type := mkRun {
  calls : list engine_call;
  output : list string;
  completion_of : completion
}.

(** ** parse_station.py *)

Module parse_station.
Import Argparse.

(** [_add_common_args(parser)] *)
Definition _add_common_args : list Action :=
  [ add_argument "--driver" None type_none None;
    add_argument "--location" None type_none None;
    add_argument "--altitude" None type_none None;
    add_argument "--latitude" None type_none None;
    add_argument "--longitude" None type_none None;
    add_argument "--register" None type_none (Some ["y"; "n"]);
    add_argument "--station-url" None type_none None;
    add_argument "--units" (Some "unit_system") type_none
      (Some ["us"; "metricwx"; "metric"]);
    add_argument "--skin-root" None type_none None;
    add_argument "--sqlite-root" None type_none None;
    add_argument "--html-root" None type_none None;
    add_argument "--no-prompt" None type_bool None ].

(** The parsers that [add_subparser(subparsers)] builds. *)
Definition station_parser : Parser :=
  {| actions := [help_action]; defaults := [] |}.

Definition create_station_parser : Parser :=
  {| actions :=
       help_action :: add_argument "--config" None type_none None
         :: _add_common_args;
     defaults := [("func", PyFunc create_station_fn)] |}.

Definition reconfigure_station_parser : Parser :=
  {| actions :=
       help_action :: add_argument "--config" None type_none None
         :: _add_common_args;
     defaults := [("func", PyFunc reconfigure_station_fn)] |}.

Definition upgrade_station_parser : Parser :=
  {| actions := [help_action]; defaults := [] |}.

Definition upgrade_skins_parser : Parser :=
  {| actions := [help_action]; defaults := [] |}.

Definition action_parser : SubParsers :=
  {| sub_dest := "action";
     name_parser_map :=
       [ ("create", create_station_parser);
         ("reconfigure", reconfigure_station_parser);
         ("upgrade", upgrade_station_parser);
         ("upgrade-skins", upgrade_skins_parser) ] |}.

(** Parsing the strings that follow [station] on the command line, as
    [parse_args] of the enclosing parser does: the namespace the
    [station] parser fills, or the parser's exit. *)
Definition parse_args (arg_strings : list string) : outcome Namespace :=
  no_extras (parse_known_args_sub station_parser action_parser arg_strings).

Section Handlers.

Variable engine : engine_call -> engine_result.

(** [try: <call> except weewx.ViolatedPrecondition as e: sys.exit(e)] *)
Definition try_call (c : py engine_call) : run :=
  match c with
  | Exc e => {| calls := []; output := []; completion_of := Raised e |}
  | Val c =>
      {| calls := [c]; output := [];
         completion_of :=
           match engine c with
           | Returns => Returned
           | Raises (ViolatedPrecondition m) =>
               SystemExit (ViolatedPrecondition m)
           | Raises e => Raised e
           end |}
  end.

Definition create_station (namespace : Namespace) : run :=
  try_call (
    config ← getattr namespace "config";
    driver ← getattr namespace "driver";
    location ← getattr namespace "location";
    altitude ← getattr namespace "altitude";
    latitude ← getattr namespace "latitude";
    longitude ← getattr namespace "longitude";
    register ← getattr namespace "register";
    unit_system ← getattr namespace "unit_system";
    skin_root ← getattr namespace "skin_root";
    sqlite_root ← getattr namespace "sqlite_root";
    html_root ← getattr namespace "html_root";
    no_prompt ← getattr namespace "no_prompt";
    Val {| entry := weecfg_create_station;
           kwargs := [ ("config_path", config);
                       ("driver", driver);
                       ("location", location);
                       ("altitude", altitude);
                       ("latitude", latitude);
                       ("longitude", longitude);
                       ("register", register);
                       ("unit_system", unit_system);
                       ("skin_root", skin_root);
                       ("sqlite_root", sqlite_root);
                       ("html_root", html_root);
                       ("no_prompt", no_prompt) ] |}).

Definition reconfigure_station (namespace : Namespace) : run :=
  try_call (
    config ← getattr namespace "config";
    driver ← getattr namespace "driver";
    location ← getattr namespace "location";
    altitude ← getattr namespace "altitude";
    latitude ← getattr namespace "latitude";
    longitude ← getattr namespace "longitude";
    register ← getattr namespace "register";
    unit_system ← getattr namespace "unit_system";
    skin_root ← getattr namespace "skin_root";
    sqlite_root ← getattr namespace "sqlite_root";
    html_root ← getattr namespace "html_root";
    no_prompt ← getattr namespace "no_prompt";
    Val {| entry := weecfg_reconfigure_station;
           kwargs := [ ("config_path", config);
                       ("driver", driver);
                       ("location", location);
                       ("altitude", altitude);
                       ("latitude", latitude);
                       ("longitude", longitude);
                       ("register", register);
                       ("unit_system", unit_system);
                       ("skin_root", skin_root);
                       ("sqlite_root", sqlite_root);
                       ("html_root", html_root);
                       ("no_prompt", no_prompt) ] |}).

(** The function object bound to [func]. *)
Definition call_handler (f : handler) (namespace : Namespace) : run :=
  match f with
  | create_station_fn => create_station namespace
  | reconfigure_station_fn => reconfigure_station namespace
  end.

End Handlers.

End parse_station.

(** ** The command, from argument strings to the engine *)

Module weectl.
Import Argparse parse_station.

(** How an invocation of [weectl station ...] goes: the parser exits
    before any handler runs, or the namespace carries no [func], or the
    handler bound to [func] runs. *)
Inductive invocation : Type :=
| parser_exit (status : Z)
| no_handler (namespace : Namespace)
| handled (f : handler) (namespace : Namespace) (r : run).

(** Modelled from the spec: the caller of the parser, in weectl's main
    module, which [parse_station.py] does not contain.  The spec's control
    flow is "CLI layer parses arguments, then the configuration engine
    entry point": the argument strings are parsed and the function bound
    to [func] by [set_defaults] is called on the namespace. *)
Definition invoke (engine : engine_call -> engine_result)
    (arg_strings : list string) : invocation :=
  match parse_args arg_strings with
  | Error _ => parser_exit 2
  | HelpExit => parser_exit 0
  | Ok namespace =>
      match namespace !! "func" with
      | Some (PyFunc f) => handled f namespace (call_handler engine f namespace)
      | _ => no_handler namespace
      end
  end.

Definition engine_calls (i : invocation) : list engine_call :=
  match i with
  | handled _ _ r => calls r
  | _ => []
  end.

End weectl.

(** The value an engine call received for a keyword. *)
Fixpoint kwarg (kw : list (string * pyval)) (name : string) : option pyval :=
  match kw with
  | [] => None
  | (k, v) :: kw' => if String.eqb name k then Some v else kwarg kw' name
  end.

(** ** Vocabulary of the statements *)

Section Vocabulary.
Import Argparse parse_station.

(** The runs of the main loop that end well, as a relation: from the
    classified strings, a namespace and the extras so far, to the final
    namespace and extras. *)
Inductive run_loop
  : list (string * arg_class) -> Namespace -> list string ->
    Namespace -> list string -> Prop :=
| loop_done ns extras :
    run_loop [] ns extras ns extras
| loop_extra s c rest ns extras ns' extras' :
    (forall a o e, c <> ClsO (Some a) o e) ->
    run_loop rest ns (extras ++ [s]) ns' extras' ->
    run_loop ((s, c) :: rest) ns extras ns' extras'
| loop_explicit s a o v value rest ns extras ns' extras' :
    cls a = StoreAction ->
    get_values a v = inr value ->
    run_loop rest (setattr ns (dest a) value) extras ns' extras' ->
    run_loop ((s, ClsO (Some a) o (Some v)) :: rest) ns extras ns' extras'
| loop_next s a o v value rest ns extras ns' extras' :
    cls a = StoreAction ->
    get_values a v = inr value ->
    run_loop rest (setattr ns (dest a) value) extras ns' extras' ->
    run_loop ((s, ClsO (Some a) o None) :: (v, ClsA) :: rest)
      ns extras ns' extras'.

(** The two actions that configure a station, with the name, the parser,
    the handler and the engine entry point of each. *)
Inductive configure_action : Type :=
| act_create
| act_reconfigure.

Definition action_name (c : configure_action) : string :=
  match c with
  | act_create => "create"
  | act_reconfigure => "reconfigure"
  end.

Definition parser_of (c : configure_action) : Parser :=
  match c with
  | act_create => create_station_parser
  | act_reconfigure => reconfigure_station_parser
  end.

Definition handler_of (c : configure_action) : handler :=
  match c with
  | act_create => create_station_fn
  | act_reconfigure => reconfigure_station_fn
  end.

Definition entry_of (c : configure_action) : entry_point :=
  match c with
  | act_create => weecfg_create_station
  | act_reconfigure => weecfg_reconfigure_station
  end.

(** The keywords of the engine call, each with the namespace attribute the
    handlers read for it. *)
Definition forwarded : list (string * string) :=
  [ ("config_path", "config"); ("driver", "driver");
    ("location", "location"); ("altitude", "altitude");
    ("latitude", "latitude"); ("longitude", "longitude");
    ("register", "register"); ("unit_system", "unit_system");
    ("skin_root", "skin_root"); ("sqlite_root", "sqlite_root");
    ("html_root", "html_root"); ("no_prompt", "no_prompt") ].

Definition forwarded_kwargs (namespace : Namespace) : list (string * pyval) :=
  map (fun '(k, d) => (k, default PyNone (namespace !! d))) forwarded.

(** The destinations of the store options of the two parsers. *)
Definition destinations : list string :=
  [ "config"; "driver"; "location"; "altitude"; "latitude"; "longitude";
    "register"; "station_url"; "unit_system"; "skin_root"; "sqlite_root";
    "html_root"; "no_prompt" ].

(** The typed errors of the specification's taxonomy, as exceptions the
    engine can raise: [PreconditionError] is the code's
    [weewx.ViolatedPrecondition], the other three are classes of their
    own. *)
Definition typed_error (e : exception) : Prop :=
  match e with
  | ViolatedPrecondition _ => True
  | OtherException class_name _ =>
      In class_name ["ValidationError"; "UpgradeStepError"; "WriteError"]
  end.

(** The namespace of the [station] parser before the action is known. *)
Definition station_namespace : Namespace := {[ "action" := PyNone ]}.

(** The first item of a list of classified strings is no argument. *)
Definition no_argument_first (items : list (string * arg_class)) : Prop :=
  match items with
  | (_, ClsA) :: _ => False
  | _ => True
  end.

(** The options of [create] and [reconfigure] that store a value, each
    with its destination: [--config] and the twelve options of
    [_add_common_args]. *)
Definition store_options : list (string * string) :=
  [ ("--config", "config"); ("--driver", "driver");
    ("--location", "location"); ("--altitude", "altitude");
    ("--latitude", "latitude"); ("--longitude", "longitude");
    ("--register", "register"); ("--station-url", "station_url");
    ("--units", "unit_system"); ("--skin-root", "skin_root");
    ("--sqlite-root", "sqlite_root"); ("--html-root", "html_root");
    ("--no-prompt", "no_prompt") ].

(** What follows an option string in one command-line string: nothing, or
    [=] and a value. *)
Definition option_suffix (suffix : string) : Prop :=
  suffix = "" \/ exists v, suffix = "=" +:+ v.

(** The second byte of a negative number: an ASCII digit, a dot, or the
    first byte of a digit of another script. *)
Definition starts_number (c : ascii) : bool :=
  let n := N_of_ascii c in
  ((48 <=? n) && (n <=? 57) || (n =? 46) || (194 <=? n))%N.

End Vocabulary.

(** * Properties *)

(** ** The parsing loop *)

Section ParsingLoop.
Import Argparse.

Variable p : Parser.

Lemma lookup_option_In tbl o a :
  lookup_option tbl o = Some a -> In (o, a) tbl.
Proof.
  induction tbl as [|[o' a'] tbl IH]; simpl; [discriminate|].
  destruct (String.eqb_spec o o') as [->|_].
  - intros [= ->]. now left.
  - intros H. right. now apply IH.
Qed.

Lemma option_string_actions_In o a :
  In (o, a) (option_string_actions p) -> In a (actions p).
Proof.
  unfold option_string_actions. rewrite in_flat_map.
  intros (a' & Ha' & Hin). apply in_map_iff in Hin.
  destruct Hin as (o' & [= _ <-] & _). exact Ha'.
Qed.

Lemma tuples_In s a o e :
  In (a, o, e) (get_option_tuples p s) -> In a (actions p).
Proof.
  unfold get_option_tuples. destruct s as [|c0 [|c1 s]]; try easy.
  destruct (Ascii.eqb c1 Str.dash).
  - destruct (match Str.split_eq _ with Some _ => _ | None => _ end)
      as [prefix ea].
    rewrite in_flat_map. intros ([o' a'] & Hin & H).
    destruct (Str.startswith o' prefix); [|easy].
    destruct H as [[= <- _ _]|[]]. eapply option_string_actions_In, Hin.
  - rewrite in_flat_map. intros ([o' a'] & Hin & H).
    destruct (String.eqb o' _).
    + destruct H as [[= <- _ _]|[]]. eapply option_string_actions_In, Hin.
    + destruct (Str.startswith o' _); [|easy].
      destruct H as [[= <- _ _]|[]]. eapply option_string_actions_In, Hin.
Qed.

Lemma classify_fst args items :
  classify p args = Ok items -> map fst items = args.
Proof.
  revert items. induction args as [|s args IH]; simpl; intros items.
  - now intros [= <-].
  - destruct (String.eqb s "--").
    + intros [= <-]. simpl. f_equal. rewrite map_map. simpl. apply map_id.
    + destruct (parse_optional p s); try discriminate;
        destruct (classify p args) as [items'| |]; simpl; try discriminate;
        intros [= <-]; simpl; f_equal; now apply IH.
Qed.

(** An option among the classified strings is a string of the command
    line that [_parse_optional] took for that option. *)
Lemma classify_option args items s a o e :
  classify p args = Ok items ->
  In (s, ClsO a o e) items ->
  In s args /\ parse_optional p s = OptionTuple a o e.
Proof.
  revert items. induction args as [|s0 args IH]; simpl; intros items.
  - intros [= <-] [].
  - destruct (String.eqb s0 "--").
    + intros [= <-] [H|H]; [discriminate|].
      apply in_map_iff in H. destruct H as (? & [=] & _).
    + destruct (parse_optional p s0) eqn:Hs0; try discriminate;
        destruct (classify p args) as [items'| |]; simpl; try discriminate;
        intros [= <-] [H|H].
      * discriminate.
      * destruct (IH _ eq_refl H). auto.
      * injection H as <- <- <- <-. auto.
      * destruct (IH _ eq_refl H). auto.
Qed.

Lemma explicit_loop_store a o explicit_arg :
  cls a = StoreAction ->
  explicit_loop p a o explicit_arg = inr ([(a, Some explicit_arg)], None).
Proof. intros H. destruct explicit_arg; simpl; now rewrite H. Qed.

Lemma explicit_loop_help a o explicit_arg tuples last :
  cls a = HelpAction ->
  explicit_loop p a o explicit_arg = inr (tuples, last) ->
  exists tuples', tuples = (a, None) :: tuples'.
Proof.
  intros H. destruct explicit_arg as [|e0 ea]; simpl; rewrite H.
  - destruct o as [|? [|? ?]]; discriminate.
  - destruct o as [|c0 [|c1 o]]; try discriminate.
    destruct (Ascii.eqb c1 Str.dash); [discriminate|].
    destruct (lookup_option _ _); [|discriminate].
    destruct ea.
    + intros [= <- _]. eauto.
    + destruct (explicit_loop _ _ _ _) as [|[]]; [discriminate|].
      intros [= <- _]. eauto.
Qed.

Lemma take_actions_help a arg tuples ns :
  cls a = HelpAction -> take_actions ((a, arg) :: tuples) ns = HelpExit.
Proof. intros H. simpl. unfold take_action. now rewrite H. Qed.

(** What [_get_values] gives for the argument of a store action. *)
Lemma get_values_dashes a : get_values a "--" = inr PyEmptyList.
Proof. reflexivity. Qed.

Lemma get_values_checked a v :
  v <> "--" -> check_value a (get_value a v) = true ->
  get_values a v = inr (get_value a v).
Proof.
  intros Hdd Hchk. unfold get_values.
  destruct (String.eqb_spec v "--") as [|_]; [contradiction|].
  now rewrite Hchk.
Qed.

Lemma get_values_inr a v value :
  get_values a v = inr value ->
  (v = "--" /\ value = PyEmptyList) \/
  (v <> "--" /\ check_value a (get_value a v) = true /\
   value = get_value a v).
Proof.
  unfold get_values. destruct (String.eqb_spec v "--") as [->|Hdd].
  - intros [= <-]. now left.
  - destruct (check_value a (get_value a v)); [|discriminate].
    intros [= <-]. now right.
Qed.

Lemma get_values_inl a v e :
  get_values a v = inl e ->
  v <> "--" /\ check_value a (get_value a v) = false /\
  e = invalid_choice a v.
Proof.
  unfold get_values. destruct (String.eqb_spec v "--") as [->|Hdd];
    [discriminate|].
  destruct (check_value a (get_value a v)); [discriminate|].
  now intros [= <-].
Qed.

(** One turn of the main loop that ends well: the first string is an
    extra, or it is a store option and [_get_values] gave a value for its
    argument. *)
Lemma consume_Ok_inv s c rest ns extras ns' extras' :
  consume p ((s, c) :: rest) ns extras = Ok (ns', extras') ->
  match c with
  | ClsO (Some a) o e =>
      cls a = StoreAction /\
      exists v value rest2,
        get_values a v = inr value /\
        consume p rest2 (setattr ns (dest a) value) extras
          = Ok (ns', extras') /\
        ((e = Some v /\ rest2 = rest) \/
         (e = None /\ rest = (v, ClsA) :: rest2))
  | _ => consume p rest ns (extras ++ [s]) = Ok (ns', extras')
  end.
Proof.
  destruct c as [| |[a|] o e]; simpl; auto.
  destruct (cls a) eqn:Hcls.
  - (* store *)
    destruct e as [v|].
    + rewrite (explicit_loop_store _ _ _ Hcls). simpl.
      unfold take_action. rewrite Hcls.
      destruct (get_values a v) as [|value] eqn:Hval; simpl; [discriminate|].
      intros H. split; [easy|]. exists v, value, rest. auto.
    + rewrite Hcls. destruct rest as [|[v [| |]] rest2]; try discriminate.
      simpl. unfold take_action. rewrite Hcls.
      destruct (get_values a v) as [|value] eqn:Hval; simpl; [discriminate|].
      intros H. split; [easy|]. exists v, value, rest2. auto.
  - (* help: the help action ends the run *)
    destruct e as [v|].
    + destruct (explicit_loop p a o v) as [|[tuples last]] eqn:Hloop;
        [discriminate|].
      destruct (explicit_loop_help _ _ _ _ _ Hcls Hloop) as [tl ->].
      destruct last as [a'|].
      * destruct (cls a'); [destruct rest as [|[? [| |]] ?]|];
          try discriminate; rewrite <- app_comm_cons;
          now rewrite (take_actions_help _ _ _ _ Hcls).
      * now rewrite (take_actions_help _ _ _ _ Hcls).
    + rewrite Hcls. simpl. unfold take_action. now rewrite Hcls.
Qed.

Lemma consume_run_loop items :
  forall ns extras ns' extras',
    consume p items ns extras = Ok (ns', extras') ->
    run_loop items ns extras ns' extras'.
Proof.
  remember (length items) as n eqn:Hn. revert items Hn.
  induction n as [n IH] using lt_wf_ind. intros items Hn ns extras ns' extras'.
  destruct items as [|[s c] rest].
  - simpl. intros [= <- <-]. constructor.
  - intros H. apply consume_Ok_inv in H. simpl in Hn.
    destruct c as [| |[a|] o e].
    + apply loop_extra; [discriminate|]. eapply IH; [|reflexivity|exact H]. lia.
    + apply loop_extra; [discriminate|]. eapply IH; [|reflexivity|exact H]. lia.
    + destruct H as (Hcls & v & value & rest2 & Hval & Hrun & [[-> ->]|[-> ->]]).
      * eapply loop_explicit; eauto. eapply IH; [|reflexivity|exact Hrun]. lia.
      * eapply loop_next; eauto. eapply IH; [|reflexivity|exact Hrun].
        simpl in Hn. lia.
    + apply loop_extra; [discriminate|]. eapply IH; [|reflexivity|exact H]. lia.
Qed.

Lemma run_loop_consume items ns extras ns' extras' :
  run_loop items ns extras ns' extras' ->
  consume p items ns extras = Ok (ns', extras').
Proof.
  induction 1 as [| s c rest ns extras ns' extras' Hc _ IH
                  | s a o v value rest ns extras ns' extras' Hcls Hval _ IH
                  | s a o v value rest ns extras ns' extras' Hcls Hval _ IH ].
  - reflexivity.
  - destruct c as [| |[a|] o e]; simpl; auto. now destruct (Hc a o e).
  - simpl. rewrite (explicit_loop_store _ _ _ Hcls). simpl.
    unfold take_action. rewrite Hcls, Hval. exact IH.
  - simpl. rewrite Hcls. simpl. unfold take_action. rewrite Hcls, Hval.
    exact IH.
Qed.

(** Extras only grow. *)
Lemma run_loop_extras items ns extras ns' extras' :
  run_loop items ns extras ns' extras' ->
  exists more, extras' = extras ++ more.
Proof.
  induction 1 as [ns extras | s c rest ns extras ns' extras' _ _ [more ->]
                  | | ]; auto.
  - exists []. now rewrite app_nil_r.
  - exists (s :: more). now rewrite <- app_assoc.
Qed.

(** A run that leaves no extras met only options and their arguments. *)
Lemma run_loop_no_extras items ns extras ns' :
  run_loop items ns extras ns' [] ->
  forall s c, In (s, c) items ->
    c = ClsA \/ exists a o e, c = ClsO (Some a) o e.
Proof.
  remember [] as none eqn:Hnone.
  induction 1 as [| s0 c0 rest ns extras ns' extras' _ Hrun IH
                  | s0 a o v value rest ns extras ns' extras' _ _ _ IH
                  | s0 a o v value rest ns extras ns' extras' _ _ _ IH ];
    intros s c Hin.
  - destruct Hin.
  - subst extras'. apply run_loop_extras in Hrun. destruct Hrun as [more Hm].
    symmetry in Hm. apply app_eq_nil in Hm. destruct Hm as [Hm _].
    apply app_eq_nil in Hm. destruct Hm as [_ [=]].
  - destruct Hin as [[= <- <-]|Hin]; eauto.
  - destruct Hin as [[= <- <-]|[[= <- <-]|Hin]]; eauto.
Qed.

(** What a run does to one attribute: it leaves it, or a store option met
    on the way set it to the value that [_get_values] gave for its
    argument. *)
Lemma run_loop_lookup d items ns extras ns' extras' :
  run_loop items ns extras ns' extras' ->
  ns' !! d = ns !! d \/
  exists s a o e v value,
    In (s, ClsO (Some a) o e) items /\ cls a = StoreAction /\ dest a = d /\
    get_values a v = inr value /\
    (e = Some v \/ (e = None /\ In (v, ClsA) items)) /\
    ns' !! d = Some value.
Proof.
  induction 1 as [| s c rest ns extras ns' extras' _ _ IH
                  | s a o v value rest ns extras ns' extras' Hcls Hval _ IH
                  | s a o v value rest ns extras ns' extras' Hcls Hval _ IH ].
  - now left.
  - destruct IH as [IH|(s1 & a1 & o1 & e1 & v1 & x1 & Hin & H1 & H2 & H3
                         & He & IH)]; [now left|].
    right. exists s1, a1, o1, e1, v1, x1.
    repeat split; auto; [now right|].
    destruct He as [He|[He Hv]]; [now left|right; split; [auto|now right]].
  - destruct IH as [IH|(s1 & a1 & o1 & e1 & v1 & x1 & Hin & H1 & H2 & H3
                         & He & IH)].
    + unfold setattr in IH. destruct (decide (dest a = d)) as [Hd|Hd].
      * right. exists s, a, o, (Some v), v, value. rewrite IH, <- Hd.
        rewrite lookup_insert_eq. repeat split; auto. now left.
      * left. now rewrite IH, lookup_insert_ne.
    + right. exists s1, a1, o1, e1, v1, x1.
      repeat split; auto; [now right|].
      destruct He as [He|[He Hv]]; [now left|right; split; [auto|now right]].
  - destruct IH as [IH|(s1 & a1 & o1 & e1 & v1 & x1 & Hin & H1 & H2 & H3
                         & He & IH)].
    + unfold setattr in IH. destruct (decide (dest a = d)) as [Hd|Hd].
      * right. exists s, a, o, None, v, value. rewrite IH, <- Hd.
        rewrite lookup_insert_eq. repeat split; auto; [now left|].
        right. split; [reflexivity|]. right. now left.
      * left. now rewrite IH, lookup_insert_ne.
    + right. exists s1, a1, o1, e1, v1, x1.
      repeat split; auto; [now do 2 right|].
      destruct He as [He|[He Hv]];
        [now left|right; split; [auto|now do 2 right]].
Qed.

(** An explicit argument that fails its option's checks cannot be
    skipped: no run ends well. *)
Lemma run_loop_rejects items ns extras ns' extras' s a o v e :
  In (s, ClsO (Some a) o (Some v)) items ->
  get_values a v = inl e ->
  ~ run_loop items ns extras ns' extras'.
Proof.
  intros Hin Hbad Hrun.
  induction Hrun as [| s0 c0 rest ns extras ns' extras' Hc _ IH
                     | s0 a0 o0 v0 x0 rest ns extras ns' extras' _ Hchk _ IH
                     | s0 a0 o0 v0 x0 rest ns extras ns' extras' _ _ _ IH ].
  - destruct Hin.
  - destruct Hin as [[= -> ->]|Hin]; [now destruct (Hc a o (Some v))|auto].
  - destruct Hin as [[= <- <- <- <-]|Hin]; [congruence|auto].
  - destruct Hin as [[=]|[[=]|Hin]]. auto.
Qed.

(** [_parse_optional] only answers with actions of the parser. *)
Lemma parse_optional_action s a o e :
  parse_optional p s = OptionTuple (Some a) o e -> In a (actions p).
Proof.
  unfold parse_optional. destruct s as [|c0 rest]; [discriminate|].
  destruct (negb (Ascii.eqb c0 Str.dash)); [discriminate|].
  destruct (lookup_option _ (String c0 rest)) as [a0|] eqn:Hl.
  { intros [= <- _ _]. eapply option_string_actions_In, lookup_option_In, Hl. }
  destruct rest as [|c1 rest]; [discriminate|].
  destruct (Str.split_eq _) as [[o' ea]|].
  - destruct (lookup_option _ o') as [a0|] eqn:Hl'.
    { intros [= <- _ _]. eapply option_string_actions_In, lookup_option_In, Hl'. }
    destruct (get_option_tuples _ _) as [|[[a1 o1] e1] [|? ?]] eqn:Ht;
      try discriminate.
    + destruct (Str.negative_number _); [discriminate|].
      destruct (Str.contains _ _); discriminate.
    + intros [= <- _ _]. eapply tuples_In. rewrite Ht. now left.
  - destruct (get_option_tuples _ _) as [|[[a1 o1] e1] [|? ?]] eqn:Ht;
      try discriminate.
    + destruct (Str.negative_number _); [discriminate|].
      destruct (Str.contains _ _); discriminate.
    + intros [= <- _ _]. eapply tuples_In. rewrite Ht. now left.
Qed.

End ParsingLoop.

(** ** The parsers of the station command *)

Section StationParsers.
Import Argparse parse_station.

(** With [-h] and [--help] as the only options, no string is ambiguous. *)
Lemma help_only_tuples c1 rest :
  (length (get_option_tuples station_parser (String "-" (String c1 rest))) <= 1)%nat.
Proof.
  destruct c1 as [[] [] [] [] [] [] [] []];
    unfold get_option_tuples; simpl;
    repeat match goal with
           | |- context [Str.split_eq ?x] => destruct (Str.split_eq x) as [[? ?]|]
           | |- context [String.prefix ?x ?y] => destruct (String.prefix x y)
           | |- context [match ?x with EmptyString => _ | String _ _ => _ end] =>
               destruct x
           | |- context [ascii_dec ?x ?y] => destruct (ascii_dec x y)
           | _ => progress simpl
           end; first [lia | discriminate].
Qed.

Lemma help_only_not_ambiguous s :
  parse_optional station_parser s <> Ambiguous.
Proof.
  unfold parse_optional. destruct s as [|c0 rest]; [discriminate|].
  destruct (Ascii.eqb_spec c0 Str.dash) as [->|_]; [|discriminate]. simpl negb.
  cbv iota. destruct (lookup_option _ _); [discriminate|].
  destruct rest as [|c1 rest]; [discriminate|].
  pose proof (help_only_tuples c1 rest) as Hlen. unfold Str.dash.
  destruct (Str.split_eq _) as [[o ea]|];
    [destruct (lookup_option _ o); [discriminate|]|];
    (destruct (get_option_tuples _ _) as [|[[a1 o1] e1] [|? ?]];
     [ destruct (Str.negative_number _); [discriminate|];
       destruct (Str.contains _ _); discriminate
     | discriminate
     | simpl in Hlen; lia ]).
Qed.

Lemma help_only_classify args :
  exists items, classify station_parser args = Ok items.
Proof.
  induction args as [|s args [items IH]]; simpl; [eauto|].
  destruct (String.eqb s "--"); [eauto|].
  pose proof (help_only_not_ambiguous s) as Hs.
  destruct (parse_optional station_parser s); [| |easy];
    rewrite IH; simpl; eauto.
Qed.

(** Parsing [name rest...], [name] being one of the four actions: the
    action's parser runs on the rest, its attributes go into the
    namespace next to [action], and anything it did not recognize is an
    error. *)
Lemma parse_args_action name parser rest :
  In (name, parser) (name_parser_map action_parser) ->
  parse_args (name :: rest) =
    no_extras ('(subnamespace, extras) ← parse_known_args parser rest;
               Ok (subnamespace ∪ <["action" := PyStr name]> station_namespace,
                   extras)).
Proof.
  intros Hin. unfold parse_args, parse_known_args_sub.
  destruct (help_only_classify rest) as [items Hitems].
  assert (classify station_parser (name :: rest) = Ok ((name, ClsA) :: items))
    as ->.
  { simpl in Hin.
    destruct Hin as [[= <- _]|[[= <- _]|[[= <- _]|[[= <- _]|[]]]]];
      simpl; now rewrite Hitems. }
  simpl. rewrite (classify_fst _ _ _ Hitems).
  unfold call_subparsers.
  assert (lookup_parser (name_parser_map action_parser) name = Some parser)
    as ->.
  { simpl in Hin.
    destruct Hin as [[= <- <-]|[[= <- <-]|[[= <- <-]|[[= <- <-]|[]]]]];
      reflexivity. }
  destruct (parse_known_args parser rest) as [[sub extras]| |]; reflexivity.
Qed.

End StationParsers.

(** ** From the command line to the engine call *)

Section Pipeline.
Import Argparse parse_station weectl.

(** What one attribute of the parsed namespace can be: the parser's initial
    value, or the value that [_get_values] gave for the argument of a store
    option that a string of the command line was taken for. *)
Lemma parse_known_args_lookup p d rest sub extras :
  parse_known_args p rest = Ok (sub, extras) ->
  sub !! d = initial_namespace p !! d \/
  exists tok a o e v value,
    In tok rest /\ parse_optional p tok = OptionTuple (Some a) o e /\
    In a (actions p) /\ cls a = StoreAction /\ dest a = d /\
    get_values a v = inr value /\
    (e = Some v \/ (e = None /\ In v rest)) /\
    sub !! d = Some value.
Proof.
  unfold parse_known_args.
  destruct (classify p rest) as [items| |] eqn:Hitems; try discriminate.
  simpl. intros Hrun. apply consume_run_loop in Hrun.
  destruct (run_loop_lookup d _ _ _ _ _ Hrun)
    as [H|(s & a & o & e & v & value & Hin & Hcls & Hd & Hval & He & Hv)];
    [now left|].
  right. destruct (classify_option _ _ _ _ _ _ _ Hitems Hin) as [Htok Hopt].
  exists s, a, o, e, v, value. repeat split; auto.
  - eapply parse_optional_action, Hopt.
  - destruct He as [He|[He Hitem]]; [now left|]. right. split; [exact He|].
    rewrite <- (classify_fst _ _ _ Hitems).
    apply (in_map fst _ _ Hitem).
Qed.

(** A command line with an explicit argument, other than [--], that fails
    the checks of its option does not parse. *)
Lemma parse_known_args_rejects p pre tok post a o v :
  parse_optional p tok = OptionTuple (Some a) o (Some v) ->
  v <> "--" ->
  check_value a (get_value a v) = false ->
  forall sub, parse_known_args p (pre ++ tok :: post) <> Ok (sub, []).
Proof.
  intros Htok Hdd Hchk sub.
  assert (get_values a v = inl (invalid_choice a v)) as Hbad.
  { unfold get_values.
    destruct (String.eqb_spec v "--") as [|_]; [contradiction|].
    now rewrite Hchk. }
  unfold parse_known_args.
  destruct (classify p (pre ++ tok :: post)) as [items| |] eqn:Hitems;
    try discriminate.
  simpl. intros Hrun. apply consume_run_loop in Hrun.
  assert (In (tok, ClsO (Some a) o (Some v)) items \/
          exists s, In (s, ClsDashes) items) as [Hin|[s Hin]].
  { clear Hrun. revert items Hitems.
    induction pre as [|s0 pre IH]; simpl; intros items.
    - destruct (String.eqb tok "--").
      + intros [= <-]. right. exists tok. now left.
      + rewrite Htok.
        destruct (classify p post); simpl; try discriminate.
        intros [= <-]. left. now left.
    - destruct (String.eqb s0 "--").
      + intros [= <-]. right. exists s0. now left.
      + destruct (parse_optional p s0); try discriminate;
          destruct (classify p (pre ++ tok :: post)) as [items'| |];
          simpl; try discriminate; intros [= <-];
          (destruct (IH _ eq_refl) as [H|[s H]];
           [left; now right|right; exists s; now right]). }
  - exact (run_loop_rejects _ _ _ _ _ _ _ _ _ _ Hin Hbad Hrun).
  - destruct (run_loop_no_extras _ _ _ _ Hrun _ _ Hin) as [|(? & ? & ? & ?)];
      discriminate.
Qed.

(** A [--] on the command line shows up in the classified strings. *)
Lemma classify_dashes p args items :
  In "--" args -> classify p args = Ok items ->
  exists s, In (s, ClsDashes) items.
Proof.
  revert items. induction args as [|s0 args IH]; intros items [].
  - subst s0. simpl. intros [= <-]. eexists. now left.
  - simpl. destruct (String.eqb s0 "--").
    + intros [= <-]. eexists. now left.
    + destruct (parse_optional p s0); try discriminate;
        destruct (classify p args) as [items0| |]; simpl; try discriminate;
        intros [= <-]; destruct (IH _ H eq_refl) as [s Hs];
        exists s; now right.
Qed.

(** The parsers of [create] and [reconfigure] have no positional
    argument: a command line with [--] in it leaves extras. *)
Lemma dashes_leave_extras p args sub :
  In "--" args -> parse_known_args p args <> Ok (sub, []).
Proof.
  intros Hin. unfold parse_known_args.
  destruct (classify p args) as [items| |] eqn:Hitems; try discriminate.
  simpl. intros Hrun. apply consume_run_loop in Hrun.
  destruct (classify_dashes _ _ _ Hin Hitems) as [s Hs].
  destruct (run_loop_no_extras _ _ _ _ Hrun _ _ Hs) as [|(? & ? & ? & ?)];
    discriminate.
Qed.

(** The namespace of a [create] or [reconfigure] command line that parses:
    the attributes the action's parser filled, next to [action]. *)
Lemma parse_args_configure c rest ns :
  parse_args (action_name c :: rest) = Ok ns ->
  exists sub,
    parse_known_args (parser_of c) rest = Ok (sub, []) /\
    ns = sub ∪ <["action" := PyStr (action_name c)]> station_namespace.
Proof.
  rewrite (parse_args_action _ (parser_of c)).
  - destruct (parse_known_args (parser_of c) rest) as [[sub [|? ?]]| |];
      simpl; try discriminate.
    intros [= <-]. eauto.
  - destruct c; simpl; auto.
Qed.

Lemma parse_args_configure_Ok c rest sub :
  parse_known_args (parser_of c) rest = Ok (sub, []) ->
  parse_args (action_name c :: rest) =
    Ok (sub ∪ <["action" := PyStr (action_name c)]> station_namespace).
Proof.
  intros H. rewrite (parse_args_action _ (parser_of c)).
  - now rewrite H.
  - destruct c; simpl; auto.
Qed.

Lemma initial_namespace_destination c d :
  In d destinations -> initial_namespace (parser_of c) !! d = Some PyNone.
Proof.
  intros Hd. simpl in Hd.
  repeat (destruct Hd as [<-|Hd]; [destruct c; vm_compute; reflexivity|]).
  destruct Hd.
Qed.

Lemma initial_namespace_func c :
  initial_namespace (parser_of c) !! "func" = Some (PyFunc (handler_of c)).
Proof. destruct c; vm_compute; reflexivity. Qed.

Lemma actions_configure c a :
  In a (actions (parser_of c)) ->
  a = help_action \/ In a (add_argument "--config" None type_none None
                             :: _add_common_args).
Proof. destruct c; simpl; intros [H|H]; auto. Qed.

Lemma value_in_In v l : value_in (PyStr v) l = true -> In v l.
Proof.
  simpl. rewrite existsb_exists. intros (x & Hx & Heq).
  apply String.eqb_eq in Heq. now subst.
Qed.

(** The destinations of the store options of the two parsers. *)
Lemma dest_destinations c a :
  In a (actions (parser_of c)) -> cls a = StoreAction ->
  In (dest a) destinations.
Proof.
  intros Hin Hcls. apply actions_configure in Hin.
  destruct Hin as [->|Hin]; [discriminate|].
  simpl in Hin.
  repeat (destruct Hin as [<-|Hin]; [vm_compute; auto 20|]).
  destruct Hin.
Qed.

(** The store options by destination: what passes the checks of each of
    them, and what it is converted to. *)
Lemma checked_value c a d v :
  In a (actions (parser_of c)) -> cls a = StoreAction -> dest a = d ->
  check_value a (get_value a v) = true ->
  In d destinations /\
  (d = "unit_system" -> In v ["us"; "metricwx"; "metric"]) /\
  (d = "register" -> In v ["y"; "n"]) /\
  get_value a v = (if String.eqb d "no_prompt" then PyBool (Str.truthy v)
                   else PyStr v).
Proof.
  intros Hin Hcls <- Hchk. apply actions_configure in Hin.
  destruct Hin as [->|Hin]; [discriminate|].
  simpl in Hin.
  repeat (destruct Hin as [<-|Hin];
          [ (split; [|split; [|split]]);
            [ vm_compute; auto 20
            | intros Hu; vm_compute in Hu; try discriminate Hu
            | intros Hr; vm_compute in Hr; try discriminate Hr
            | reflexivity ] |]);
    try destruct Hin.
  - exact (value_in_In _ _ Hchk).
  - exact (value_in_In _ _ Hchk).
Qed.

(** What each of them stores: the empty list for the argument [--], the
    converted argument when it passes the checks. *)
Lemma stored_value c a d v value :
  In a (actions (parser_of c)) -> cls a = StoreAction -> dest a = d ->
  get_values a v = inr value ->
  (v = "--" /\ value = PyEmptyList) \/
  (v <> "--" /\
   (d = "unit_system" -> In v ["us"; "metricwx"; "metric"]) /\
   (d = "register" -> In v ["y"; "n"]) /\
   value = (if String.eqb d "no_prompt" then PyBool (Str.truthy v)
            else PyStr v)).
Proof.
  intros Hin Hcls Hd Hval.
  destruct (get_values_inr _ _ _ Hval) as [H|(Hdd & Hchk & ->)]; [now left|].
  right. split; [exact Hdd|].
  now destruct (checked_value _ _ _ _ Hin Hcls Hd Hchk) as (_ & H).
Qed.

(** Every destination is an attribute of the parsed namespace, and [func]
    is the handler of the action. *)
Lemma parse_known_args_present c rest sub extras d :
  parse_known_args (parser_of c) rest = Ok (sub, extras) ->
  In d destinations -> is_Some (sub !! d).
Proof.
  intros Hp Hd.
  destruct (parse_known_args_lookup _ d _ _ _ Hp)
    as [H|(_ & a & _ & _ & v & value & _ & _ & _ & _ & _ & _ & _ & H)];
    rewrite H; [|eauto].
  rewrite initial_namespace_destination; eauto.
Qed.

Lemma parse_known_args_func c rest sub extras :
  parse_known_args (parser_of c) rest = Ok (sub, extras) ->
  sub !! "func" = Some (PyFunc (handler_of c)).
Proof.
  intros Hp.
  destruct (parse_known_args_lookup _ "func" _ _ _ Hp)
    as [H|(_ & a & _ & _ & v & value & _ & _ & Hin & Hcls & Hd & _)].
  - rewrite H. apply initial_namespace_func.
  - pose proof (dest_destinations _ _ Hin Hcls) as H. rewrite Hd in H.
    vm_compute in H. intuition discriminate.
Qed.

(** The handlers on a namespace that has the twelve attributes they read:
    one engine call, whose keywords carry those attributes. *)
Lemma call_handler_forwarded engine c ns :
  (forall d, In d destinations -> is_Some (ns !! d)) ->
  call_handler engine (handler_of c) ns =
    try_call engine
      (Val {| entry := entry_of c; kwargs := forwarded_kwargs ns |}).
Proof.
  intros H. unfold forwarded_kwargs, forwarded. simpl map.
  assert (forall d, In d destinations -> getattr ns d = Val (default PyNone (ns !! d)))
    as Hget.
  { intros d Hd. unfold getattr. destruct (H d Hd) as [v ->]. reflexivity. }
  destruct c; simpl; unfold create_station, reconfigure_station;
    repeat (rewrite Hget by (vm_compute; auto 20); simpl mbind); reflexivity.
Qed.

End Pipeline.

(** ** Evaluating command lines with an unknown argument *)

Section Evaluation.
Import Argparse parse_station weectl.

(** A store option with an explicit argument for which [_get_values] gives
    a value sets its destination, and the loop goes on. *)
Lemma consume_explicit p s a o v value rest ns extras :
  cls a = StoreAction ->
  get_values a v = inr value ->
  consume p ((s, ClsO (Some a) o (Some v)) :: rest) ns extras =
    consume p rest (setattr ns (dest a) value) extras.
Proof.
  intros Hcls Hval. simpl. rewrite (explicit_loop_store _ _ _ _ Hcls). simpl.
  unfold take_action. now rewrite Hcls, Hval.
Qed.

(** One explicit [--opt=value] for a store option, alone on the command
    line of [create] or [reconfigure]. *)
Lemma parse_args_one_explicit c tok a o v value :
  tok <> "--" ->
  parse_optional (parser_of c) tok = OptionTuple (Some a) o (Some v) ->
  cls a = StoreAction ->
  get_values a v = inr value ->
  parse_args [action_name c; tok] =
    Ok (setattr (initial_namespace (parser_of c)) (dest a) value
          ∪ <["action" := PyStr (action_name c)]> station_namespace).
Proof.
  intros Hdd Htok Hcls Hval. apply parse_args_configure_Ok.
  unfold parse_known_args. simpl classify.
  destruct (String.eqb_spec tok "--") as [|_]; [contradiction|].
  rewrite Htok. simpl. rewrite (explicit_loop_store _ _ _ _ Hcls). simpl.
  unfold take_action. now rewrite Hcls, Hval.
Qed.

(** The same option given as two strings, the second one an argument. *)
Lemma parse_args_one_separate c tok a o v :
  tok <> "--" -> v <> "--" ->
  parse_optional (parser_of c) tok = OptionTuple (Some a) o None ->
  parse_optional (parser_of c) v = Positional ->
  cls a = StoreAction ->
  check_value a (get_value a v) = true ->
  parse_args [action_name c; tok; v] =
    Ok (setattr (initial_namespace (parser_of c)) (dest a) (get_value a v)
          ∪ <["action" := PyStr (action_name c)]> station_namespace).
Proof.
  intros Hdd Hvdd Htok Hv Hcls Hchk. apply parse_args_configure_Ok.
  unfold parse_known_args. simpl classify.
  destruct (String.eqb_spec tok "--") as [|_]; [contradiction|].
  destruct (String.eqb_spec v "--") as [|_]; [contradiction|].
  rewrite Htok, Hv. simpl. rewrite Hcls. simpl.
  unfold take_action. now rewrite Hcls, (get_values_checked _ _ Hvdd Hchk).
Qed.

(** [_parse_optional] on a string of two characters or more that starts
    with a dash. *)
Lemma parse_optional_dash p c1 r :
  parse_optional p (String "-" (String c1 r)) =
    let arg_string := String "-" (String c1 r) in
    match lookup_option (option_string_actions p) arg_string with
    | Some a => OptionTuple (Some a) arg_string None
    | None =>
        match
          match Str.split_eq arg_string with
          | Some (o, explicit_arg) =>
              match lookup_option (option_string_actions p) o with
              | Some a => Some (OptionTuple (Some a) o (Some explicit_arg))
              | None => None
              end
          | None => None
          end
        with
        | Some r => r
        | None =>
            match get_option_tuples p arg_string with
            | _ :: _ :: _ => Ambiguous
            | [(a, o, e)] => OptionTuple (Some a) o e
            | [] =>
                if Str.negative_number arg_string then Positional
                else if Str.contains " " arg_string then Positional
                else OptionTuple None arg_string None
            end
        end
    end.
Proof. reflexivity. Qed.

Lemma negative_number_second s :
  Str.negative_number s = true ->
  exists c1 r, s = String "-" (String c1 r) /\ starts_number c1 = true.
Proof.
  destruct s as [|c0 [|c1 r]]; [discriminate| |].
  - unfold Str.negative_number.
    change (Str.digits_then_end "") with false.
    change (Str.drop_digits "") with "".
    now rewrite andb_false_r.
  - unfold Str.negative_number.
    destruct (Ascii.eqb_spec c0 Str.dash) as [->|_]; [|discriminate].
    intros H. exists c1, r. split; [reflexivity|].
    destruct c1 as [[] [] [] [] [] [] [] []];
      first [ reflexivity | exfalso; vm_compute in H; discriminate H ].
Qed.

(** No option of [create] and [reconfigure] looks like a negative number:
    such a string is taken for an argument. *)
Lemma negative_number_is_argument c s :
  Str.negative_number s = true ->
  parse_optional (parser_of c) s = Positional /\ s <> "--".
Proof.
  intros Hneg.
  destruct (negative_number_second _ Hneg) as (c1 & r & -> & Hc1).
  split.
  - rewrite parse_optional_dash. cbv zeta. rewrite Hneg. clear Hneg.
    destruct c1 as [[] [] [] [] [] [] [] []];
      first [ discriminate Hc1
            | destruct c; simpl;
              (destruct (Str.split_eq r) as [[? ?]|]; reflexivity) ].
  - intros [= -> ->]. discriminate.
Qed.

(** A string that does not start with a dash is an argument. *)
Lemma no_dash_is_argument p v :
  Str.startswith v "-" = false ->
  parse_optional p v = Positional /\ v <> "--".
Proof.
  destruct v as [|c0 r]; [split; [reflexivity|discriminate]|].
  unfold Str.startswith. simpl.
  destruct (ascii_dec "-" c0) as [<-|Hc0].
  - destruct r; discriminate.
  - intros _. split.
    + destruct (Ascii.eqb_spec c0 Str.dash) as [->|_]; [now destruct Hc0|].
      reflexivity.
    + intros [= -> _]. now destruct Hc0.
Qed.


(** The engine call of a [create] or [reconfigure] command line that
    parses. *)
Lemma invoke_configure engine c rest ns :
  parse_args (action_name c :: rest) = Ok ns ->
  invoke engine (action_name c :: rest) =
    handled (handler_of c) ns
      (try_call engine
         (Val {| entry := entry_of c; kwargs := forwarded_kwargs ns |})).
Proof.
  intros Hp. unfold invoke. rewrite Hp.
  destruct (parse_args_configure _ _ _ Hp) as (sub & Hsub & ->).
  rewrite (lookup_union_Some_l _ _ _ _ (parse_known_args_func _ _ _ _ Hsub)).
  f_equal. apply call_handler_forwarded. intros d Hd.
  destruct (parse_known_args_present _ _ _ _ _ Hsub Hd) as [x Hx].
  rewrite (lookup_union_Some_l _ _ _ _ Hx). eauto.
Qed.

End Evaluation.

(** Runs the first loop of the parser on the command line of the goal. *)
Ltac eval_classify :=
  match goal with
  | |- context [Argparse.classify ?p ?args] =>
      let r := eval vm_compute in (Argparse.classify p args) in
      replace (Argparse.classify p args) with r by (vm_compute; reflexivity)
  end.

(** * The claims *)

Section Claims.
Import Argparse parse_station weectl.

(** C1 (the code falls short of the claim).  A station URL given with
    [--station-url] is parsed into the namespace, next to [--register=y]
    (as it was given; argparse turns the bare [--] into an empty list),
    but neither handler forwards it: the engine call of [create] and of
    [reconfigure] has the keywords below, [station_url] is none of them and
    no keyword carries the URL. *)
Theorem C1_station_url_not_forwarded engine c url :
  let arg_strings :=
    [action_name c; "--register=y"; "--station-url=" +:+ url] in
  exists ns,
    parse_args arg_strings = Ok ns /\
    ns !! "register" = Some (PyStr "y") /\
    ns !! "station_url"
    = Some (if String.eqb url "--" then PyEmptyList else PyStr url) /\
    engine_calls (invoke engine arg_strings) =
      [ {| entry := entry_of c;
           kwargs := [ ("config_path", PyNone); ("driver", PyNone);
                       ("location", PyNone); ("altitude", PyNone);
                       ("latitude", PyNone); ("longitude", PyNone);
                       ("register", PyStr "y"); ("unit_system", PyNone);
                       ("skin_root", PyNone); ("sqlite_root", PyNone);
                       ("html_root", PyNone); ("no_prompt", PyNone) ] |} ].
Proof.
  intros arg_strings.
  assert (exists sub,
            parse_known_args (parser_of c)
              ["--register=y"; "--station-url=" +:+ url] = Ok (sub, []) /\
            sub = setattr (setattr (initial_namespace (parser_of c))
                             "register" (PyStr "y"))
                    "station_url"
                    (if String.eqb url "--" then PyEmptyList else PyStr url))
    as (sub & Hsub & Hns).
  { assert (get_values (add_argument "--station-url" None type_none None) url
            = inr (if String.eqb url "--" then PyEmptyList else PyStr url))
      as Hurl.
    { unfold get_values. destruct (String.eqb url "--"); reflexivity. }
    eexists. split; [|reflexivity]. unfold parse_known_args.
    destruct c; eval_classify; cbn [mbind outcome_bind];
      rewrite (consume_explicit _ _ _ _ _ (PyStr "y")) by reflexivity;
      rewrite (consume_explicit _ _
                 (add_argument "--station-url" None type_none None)
                 _ _ _ _ _ _ eq_refl Hurl);
      reflexivity. }
  pose proof (parse_args_configure_Ok _ _ _ Hsub) as Hp.
  eexists. split; [exact Hp|].
  rewrite (invoke_configure _ _ _ _ Hp). subst sub.
  destruct c; vm_compute; auto.
Qed.

(** C3 (the code falls short of the claim).  [upgrade] and [upgrade-skins]
    parse, but their namespace has [action] as its only attribute: no
    [func] is bound, so no handler runs and the engine is not called,
    whereas [create] and [reconfigure] bind [create_station] and
    [reconfigure_station]. *)
Theorem C3_upgrade_binds_no_handler :
  parse_args ["upgrade"] = Ok {[ "action" := PyStr "upgrade" ]} /\
  parse_args ["upgrade-skins"] = Ok {[ "action" := PyStr "upgrade-skins" ]} /\
  ({[ "action" := PyStr "upgrade" ]} : Namespace) !! "func" = None /\
  ({[ "action" := PyStr "upgrade-skins" ]} : Namespace) !! "func" = None /\
  (forall engine,
      invoke engine ["upgrade"] = no_handler {[ "action" := PyStr "upgrade" ]} /\
      invoke engine ["upgrade-skins"]
        = no_handler {[ "action" := PyStr "upgrade-skins" ]}) /\
  (exists ns, parse_args ["create"] = Ok ns /\
              ns !! "func" = Some (PyFunc create_station_fn)) /\
  (exists ns, parse_args ["reconfigure"] = Ok ns /\
              ns !! "func" = Some (PyFunc reconfigure_station_fn)).
Proof.
  assert (parse_args ["upgrade"] = Ok {[ "action" := PyStr "upgrade" ]}) as Hu
    by (vm_compute; reflexivity).
  assert (parse_args ["upgrade-skins"]
          = Ok {[ "action" := PyStr "upgrade-skins" ]}) as Hs
    by (vm_compute; reflexivity).
  split; [exact Hu|]. split; [exact Hs|].
  split; [vm_compute; reflexivity|]. split; [vm_compute; reflexivity|].
  split; [|split].
  - intros engine. unfold invoke. rewrite Hu, Hs. split; reflexivity.
  - eexists. split; [reflexivity|]. vm_compute. reflexivity.
  - eexists. split; [reflexivity|]. vm_compute. reflexivity.
Qed.

(** C4 (the code falls short of the claim).  The parsers of [upgrade] and
    [upgrade-skins] have no [--config] option: for every path,
    [upgrade --config=PATH] and [upgrade-skins --config=PATH] end in the
    error "unrecognized arguments", whereas [create] and [reconfigure]
    record the path under [config] (as it was given; argparse turns the
    bare [--] into an empty list). *)
Theorem C4_upgrade_rejects_config path :
  parse_args ["upgrade"; "--config=" +:+ path]
    = Error (unrecognized_arguments ["--config=" +:+ path]) /\
  parse_args ["upgrade-skins"; "--config=" +:+ path]
    = Error (unrecognized_arguments ["--config=" +:+ path]) /\
  (exists ns, parse_args ["create"; "--config=" +:+ path] = Ok ns /\
              ns !! "config"
              = Some (if String.eqb path "--" then PyEmptyList
                      else PyStr path)) /\
  (exists ns, parse_args ["reconfigure"; "--config=" +:+ path] = Ok ns /\
              ns !! "config"
              = Some (if String.eqb path "--" then PyEmptyList
                      else PyStr path)).
Proof.
  assert (forall name,
             In (name, upgrade_station_parser) (name_parser_map action_parser) ->
             parse_args [name; "--config=" +:+ path]
             = Error (unrecognized_arguments ["--config=" +:+ path])) as Hup.
  { intros name Hin. rewrite (parse_args_action _ _ _ Hin).
    unfold parse_known_args. simpl classify.
    match goal with
    | |- context [Str.contains ?c ?x] => destruct (Str.contains c x)
    end; reflexivity. }
  assert (get_values (add_argument "--config" None type_none None) path
          = inr (if String.eqb path "--" then PyEmptyList else PyStr path))
    as Hpath.
  { unfold get_values. destruct (String.eqb path "--"); reflexivity. }
  assert ("--config=" +:+ path <> "--") as Hdd by discriminate.
  split; [apply Hup; simpl; auto|].
  split; [apply Hup; simpl; auto|].
  split.
  - eexists. split.
    + apply (parse_args_one_explicit act_create _
               (add_argument "--config" None type_none None) "--config" path
               _ Hdd eq_refl eq_refl Hpath).
    + vm_compute. reflexivity.
  - eexists. split.
    + apply (parse_args_one_explicit act_reconfigure _
               (add_argument "--config" None type_none None) "--config" path
               _ Hdd eq_refl eq_refl Hpath).
    + vm_compute. reflexivity.
Qed.

(** Both handlers are the same [try] around one engine call. *)
Lemma call_handler_try_call engine f ns :
  exists m, call_handler engine f ns = try_call engine m.
Proof. destruct f; eexists; reflexivity. Qed.

Lemma try_call_calls engine m call :
  calls (try_call engine m) = [call] -> m = Val call.
Proof. destruct m; simpl; [now intros [= ->]|discriminate]. Qed.

(** C2 (counterexample).  The engine raises a [ValidationError], one of the
    typed errors of the taxonomy, during [create --latitude=91]: the handler
    makes the call and the error leaves it as it came, uncaught and not
    converted into an exit. *)
Lemma C2_counterexample :
  typed_error (OtherException "ValidationError" "latitude") /\
  parse_args ["create"; "--latitude=91"]
  = Ok (setattr (initial_namespace create_station_parser)
          "latitude" (PyStr "91")
          ∪ <["action" := PyStr "create"]> station_namespace) /\
  create_station
    (fun _ => Raises (OtherException "ValidationError" "latitude"))
    (setattr (initial_namespace create_station_parser)
       "latitude" (PyStr "91")
       ∪ <["action" := PyStr "create"]> station_namespace)
  = {| calls :=
         [ {| entry := weecfg_create_station;
              kwargs := [ ("config_path", PyNone); ("driver", PyNone);
                          ("location", PyNone); ("altitude", PyNone);
                          ("latitude", PyStr "91"); ("longitude", PyNone);
                          ("register", PyNone); ("unit_system", PyNone);
                          ("skin_root", PyNone); ("sqlite_root", PyNone);
                          ("html_root", PyNone); ("no_prompt", PyNone) ] |} ];
       output := [];
       completion_of := Raised (OtherException "ValidationError" "latitude") |}.
Proof.
  split; [simpl; auto|]. split.
  - apply (parse_args_one_explicit act_create _
             (add_argument "--latitude" None type_none None) "--latitude" "91");
      try reflexivity. discriminate.
  - vm_compute. reflexivity.
Qed.

(** C2 (amended).  Of the errors the engine raises during the call that
    [create_station] or [reconfigure_station] makes, the handler catches
    [weewx.ViolatedPrecondition] and turns it into [sys.exit(e)]; every
    other exception leaves the handler as it was raised.  None is
    swallowed: the handler never returns normally from a call that raised. *)
Theorem C2_only_violated_precondition_is_caught engine c ns call e :
  calls (call_handler engine (handler_of c) ns) = [call] ->
  engine call = Raises e ->
  completion_of (call_handler engine (handler_of c) ns) =
    match e with
    | ViolatedPrecondition _ => SystemExit e
    | OtherException _ _ => Raised e
    end /\
  completion_of (call_handler engine (handler_of c) ns) <> Returned.
Proof.
  destruct (call_handler_try_call engine (handler_of c) ns) as [m ->].
  intros Hcalls He. apply try_call_calls in Hcalls. subst m. simpl.
  rewrite He. destruct e; split; auto; discriminate.
Qed.

(** C2, at a concrete call: the engine raises [ViolatedPrecondition] on
    [create] with nothing given, and the handler exits with it. *)
Lemma C2_witness :
  completion_of
    (call_handler (fun _ => Raises (ViolatedPrecondition "exists"))
       (handler_of act_create)
       (initial_namespace create_station_parser))
  = SystemExit (ViolatedPrecondition "exists") /\
  completion_of
    (call_handler (fun _ => Raises (ViolatedPrecondition "exists"))
       (handler_of act_create)
       (initial_namespace create_station_parser))
  <> Returned.
Proof.
  eapply (C2_only_violated_precondition_is_caught
            (fun _ => Raises (ViolatedPrecondition "exists")) act_create
            (initial_namespace create_station_parser)
            _ (ViolatedPrecondition "exists")).
  - vm_compute. reflexivity.
  - reflexivity.
Defined.

(** C5 (counterexample).  The engine raises a [WriteError] during
    [reconfigure --driver=x]: the handler made the call, and its run ends
    with that exception, although the engine raised no
    [ViolatedPrecondition]. *)
Lemma C5_counterexample :
  parse_args ["reconfigure"; "--driver=x"]
  = Ok (setattr (initial_namespace reconfigure_station_parser)
          "driver" (PyStr "x")
          ∪ <["action" := PyStr "reconfigure"]> station_namespace) /\
  completion_of
    (call_handler (fun _ => Raises (OtherException "WriteError" "disk full"))
       reconfigure_station_fn
       (setattr (initial_namespace reconfigure_station_parser)
          "driver" (PyStr "x")
          ∪ <["action" := PyStr "reconfigure"]> station_namespace))
  = Raised (OtherException "WriteError" "disk full") /\
  ~ (completion_of
       (call_handler
          (fun _ => Raises (OtherException "WriteError" "disk full"))
          reconfigure_station_fn
          (setattr (initial_namespace reconfigure_station_parser)
             "driver" (PyStr "x")
             ∪ <["action" := PyStr "reconfigure"]> station_namespace))
     <> Returned
     <->
     exists call message,
       (fun _ : engine_call =>
          Raises (OtherException "WriteError" "disk full")) call
       = Raises (ViolatedPrecondition message)).
Proof.
  assert (completion_of
            (call_handler
               (fun _ => Raises (OtherException "WriteError" "disk full"))
               reconfigure_station_fn
               (setattr (initial_namespace reconfigure_station_parser)
                  "driver" (PyStr "x")
                  ∪ <["action" := PyStr "reconfigure"]> station_namespace))
          = Raised (OtherException "WriteError" "disk full")) as Hrun
    by (vm_compute; reflexivity).
  split; [|split; [exact Hrun|]].
  - apply (parse_args_one_explicit act_reconfigure _
             (add_argument "--driver" None type_none None) "--driver" "x");
      try reflexivity. discriminate.
  - rewrite Hrun. intros [H _].
    destruct H as (call & message & H); discriminate.
Qed.

(** C5 (amended).  On a namespace that has the twelve attributes they
    read, [create_station] and [reconfigure_station] make one engine call
    and write nothing themselves.  They end in [sys.exit] exactly when
    that call raises [weewx.ViolatedPrecondition]: the exit carries the
    exception, so the status is 1 and the one line written is its
    message.  When the call returns, the handler returns.  Any other
    exception leaves the handler as it was raised: the run ends there
    too, but not through [sys.exit]. *)
Theorem C5_sys_exit_iff_violated_precondition engine c ns :
  (forall d,
      In d [ "config"; "driver"; "location"; "altitude"; "latitude";
             "longitude"; "register"; "unit_system"; "skin_root";
             "sqlite_root"; "html_root"; "no_prompt" ] ->
      is_Some (ns !! d)) ->
  exists call,
    calls (call_handler engine (handler_of c) ns) = [call] /\
    entry call = entry_of c /\
    output (call_handler engine (handler_of c) ns) = [] /\
    (forall code,
        completion_of (call_handler engine (handler_of c) ns) = SystemExit code
        <->
        exists message,
          engine call = Raises (ViolatedPrecondition message) /\
          code = ViolatedPrecondition message) /\
    (forall message,
        engine call = Raises (ViolatedPrecondition message) ->
        completion_of (call_handler engine (handler_of c) ns)
        = SystemExit (ViolatedPrecondition message) /\
        exit_status (ViolatedPrecondition message) = 1%Z /\
        exit_stderr (ViolatedPrecondition message) = [message]) /\
    (engine call = Returns ->
     completion_of (call_handler engine (handler_of c) ns) = Returned) /\
    (forall class_name message,
        engine call = Raises (OtherException class_name message) ->
        completion_of (call_handler engine (handler_of c) ns)
        = Raised (OtherException class_name message)).
Proof.
  intros Hns.
  assert (forall d,
             In d [ "config"; "driver"; "location"; "altitude"; "latitude";
                    "longitude"; "register"; "unit_system"; "skin_root";
                    "sqlite_root"; "html_root"; "no_prompt" ] ->
             getattr ns d = Val (default PyNone (ns !! d))) as Hget.
  { intros d Hd. unfold getattr. destruct (Hns d Hd) as [v ->]. reflexivity. }
  assert (call_handler engine (handler_of c) ns
          = try_call engine
              (Val {| entry := entry_of c; kwargs := forwarded_kwargs ns |}))
    as ->.
  { unfold forwarded_kwargs, forwarded. simpl map.
    destruct c; simpl; unfold create_station, reconfigure_station;
      repeat (rewrite Hget by (simpl; auto 20); simpl mbind); reflexivity. }
  eexists. split; [reflexivity|]. split; [reflexivity|].
  split; [reflexivity|]. simpl.
  destruct (engine _) as [|[message|class_name message]];
    (split; [intros code; split|split; [|split]]).
  - discriminate.
  - intros (message & He & _). discriminate He.
  - discriminate.
  - reflexivity.
  - discriminate.
  - intros [= <-]. eauto.
  - intros (m & [= <-] & ->). reflexivity.
  - intros m [= <-]. repeat split.
  - discriminate.
  - discriminate.
  - discriminate.
  - intros (m & He & _). discriminate He.
  - discriminate.
  - discriminate.
  - intros cn m [= <- <-]. reflexivity.
Qed.

(** C5, at [create] with nothing given and an engine that finds the
    configuration file in its way. *)
Lemma C5_witness :
  exists call,
    calls (call_handler (fun _ => Raises (ViolatedPrecondition "exists"))
             (handler_of act_create)
             (initial_namespace create_station_parser)) = [call] /\
    entry call = entry_of act_create /\
    output (call_handler (fun _ => Raises (ViolatedPrecondition "exists"))
              (handler_of act_create)
              (initial_namespace create_station_parser)) = [] /\
    (forall code,
        completion_of
          (call_handler (fun _ => Raises (ViolatedPrecondition "exists"))
             (handler_of act_create)
             (initial_namespace create_station_parser)) = SystemExit code
        <->
        exists message,
          (fun _ : engine_call => Raises (ViolatedPrecondition "exists")) call
          = Raises (ViolatedPrecondition message) /\
          code = ViolatedPrecondition message) /\
    (forall message,
        (fun _ : engine_call => Raises (ViolatedPrecondition "exists")) call
        = Raises (ViolatedPrecondition message) ->
        completion_of
          (call_handler (fun _ => Raises (ViolatedPrecondition "exists"))
             (handler_of act_create)
             (initial_namespace create_station_parser))
        = SystemExit (ViolatedPrecondition message) /\
        exit_status (ViolatedPrecondition message) = 1%Z /\
        exit_stderr (ViolatedPrecondition message) = [message]) /\
    ((fun _ : engine_call => Raises (ViolatedPrecondition "exists")) call
     = Returns ->
     completion_of
       (call_handler (fun _ => Raises (ViolatedPrecondition "exists"))
          (handler_of act_create)
          (initial_namespace create_station_parser)) = Returned) /\
    (forall class_name message,
        (fun _ : engine_call => Raises (ViolatedPrecondition "exists")) call
        = Raises (OtherException class_name message) ->
        completion_of
          (call_handler (fun _ => Raises (ViolatedPrecondition "exists"))
             (handler_of act_create)
             (initial_namespace create_station_parser))
        = Raised (OtherException class_name message)).
Proof.
  apply (C5_sys_exit_iff_violated_precondition
           (fun _ => Raises (ViolatedPrecondition "exists")) act_create
           (initial_namespace create_station_parser)).
  intros d Hd. simpl in Hd.
  repeat (destruct Hd as [<-|Hd]; [vm_compute; eauto|]).
  destruct Hd.
Defined.

(** C10.  The engine call of a handler depends only on the twelve
    attributes it reads: on two namespaces that agree on them, whatever
    else they hold, [create_station] (and [reconfigure_station]) make the
    same call with the same keywords and the same values, and end the same
    way. *)
Theorem C10_handlers_depend_on_forwarded_attributes engine f ns1 ns2 :
  (forall d,
      In d [ "config"; "driver"; "location"; "altitude"; "latitude";
             "longitude"; "register"; "unit_system"; "skin_root";
             "sqlite_root"; "html_root"; "no_prompt" ] ->
      ns1 !! d = ns2 !! d) ->
  call_handler engine f ns1 = call_handler engine f ns2.
Proof.
  intros H.
  assert (forall d,
             In d [ "config"; "driver"; "location"; "altitude"; "latitude";
                    "longitude"; "register"; "unit_system"; "skin_root";
                    "sqlite_root"; "html_root"; "no_prompt" ] ->
             getattr ns1 d = getattr ns2 d) as Hget.
  { intros d Hd. unfold getattr. now rewrite (H d Hd). }
  destruct f; simpl; unfold create_station, reconfigure_station;
    repeat (rewrite Hget by (simpl; auto 20)); reflexivity.
Qed.

(** C10, at two namespaces that differ in [station_url] and [action]
    only. *)
Lemma C10_witness :
  call_handler (fun _ => Returns) create_station_fn
    (<["station_url" := PyStr "http://a"]>
       (initial_namespace create_station_parser))
  = call_handler (fun _ => Returns) create_station_fn
      (<["action" := PyStr "create"]>
         (initial_namespace create_station_parser)).
Proof.
  apply (C10_handlers_depend_on_forwarded_attributes (fun _ => Returns)
           create_station_fn).
  intros d Hd. simpl in Hd.
  repeat (destruct Hd as [<-|Hd]; [vm_compute; reflexivity|]).
  destruct Hd.
Defined.

Lemma kwarg_forwarded ns d :
  In d [ "driver"; "location"; "altitude"; "latitude"; "longitude";
         "register"; "unit_system"; "skin_root"; "sqlite_root"; "html_root";
         "no_prompt" ] ->
  kwarg (forwarded_kwargs ns) d = Some (default PyNone (ns !! d)).
Proof.
  intros Hd. simpl in Hd.
  repeat (destruct Hd as [<-|Hd]; [reflexivity|]). destruct Hd.
Qed.

(** C6.  On a [create] or [reconfigure] command line that parses, a field
    among driver, location, altitude, latitude, longitude, register,
    unit_system, skin_root, sqlite_root, html_root and no_prompt that no
    string of the command line is taken for (as the parser itself takes
    strings for options, abbreviations included) is [None] in the
    namespace, and [None] is what the engine call receives for it: no
    default is substituted. *)
Theorem C6_fields_not_given_are_None engine c rest ns d :
  parse_args (action_name c :: rest) = Ok ns ->
  In d [ "driver"; "location"; "altitude"; "latitude"; "longitude";
         "register"; "unit_system"; "skin_root"; "sqlite_root"; "html_root";
         "no_prompt" ] ->
  (forall tok a o e,
      In tok rest ->
      parse_optional (parser_of c) tok = OptionTuple (Some a) o e ->
      dest a <> d) ->
  ns !! d = Some PyNone /\
  exists call,
    engine_calls (invoke engine (action_name c :: rest)) = [call] /\
    entry call = entry_of c /\
    kwarg (kwargs call) d = Some PyNone.
Proof.
  intros Hp Hd Habsent.
  assert (ns !! d = Some PyNone) as Hns.
  { destruct (parse_args_configure _ _ _ Hp) as (sub & Hsub & ->).
    apply lookup_union_Some_l.
    destruct (parse_known_args_lookup _ d _ _ _ Hsub)
      as [H|(tok & a & o & e & v & value & Htok & Hopt & _ & _ & Hdest & _)].
    - rewrite H. apply initial_namespace_destination.
      simpl in Hd. simpl. intuition auto.
    - destruct (Habsent _ _ _ _ Htok Hopt Hdest). }
  split; [exact Hns|].
  rewrite (invoke_configure _ _ _ _ Hp). simpl.
  eexists. split; [reflexivity|]. split; [reflexivity|]. simpl kwargs.
  now rewrite (kwarg_forwarded _ _ Hd), Hns.
Qed.

(** C6, at [create --location=here] and the field driver. *)
Lemma C6_witness :
  parse_args (action_name act_create :: ["--location=here"])
  = Ok (setattr (initial_namespace create_station_parser)
          "location" (PyStr "here")
          ∪ <["action" := PyStr "create"]> station_namespace) /\
  ((setattr (initial_namespace create_station_parser)
      "location" (PyStr "here")
      ∪ <["action" := PyStr "create"]> station_namespace : Namespace)
     !! "driver" = Some PyNone /\
   exists call,
     engine_calls (invoke (fun _ => Returns)
                     (action_name act_create :: ["--location=here"]))
     = [call] /\
     entry call = entry_of act_create /\
     kwarg (kwargs call) "driver" = Some PyNone).
Proof.
  assert (parse_args (action_name act_create :: ["--location=here"])
          = Ok (setattr (initial_namespace create_station_parser)
                  "location" (PyStr "here")
                  ∪ <["action" := PyStr "create"]> station_namespace)) as Hp.
  { apply (parse_args_one_explicit act_create _
             (add_argument "--location" None type_none None)
             "--location" "here"); try reflexivity. discriminate. }
  split; [exact Hp|].
  apply (C6_fields_not_given_are_None (fun _ => Returns) act_create
           ["--location=here"] _ "driver" Hp).
  - simpl. auto.
  - intros tok a o e [<-|[]] Hopt. vm_compute in Hopt.
    injection Hopt as <- _ _. discriminate.
Defined.

Lemma value_in_not_In v l : ~ In v l -> value_in (PyStr v) l = false.
Proof.
  intros H. destruct (value_in (PyStr v) l) eqn:E; [|reflexivity].
  destruct (H (value_in_In _ _ E)).
Qed.

(** A command line of [create] or [reconfigure] that holds, as one of its
    strings, an explicit argument other than [--] failing the checks of its
    option: the parser exits, and the engine is not called. *)
Lemma invoke_rejects engine c pre tok post a o v :
  parse_optional (parser_of c) tok = OptionTuple (Some a) o (Some v) ->
  v <> "--" ->
  check_value a (get_value a v) = false ->
  (forall ns, parse_args (action_name c :: pre ++ tok :: post) <> Ok ns) /\
  engine_calls (invoke engine (action_name c :: pre ++ tok :: post)) = [].
Proof.
  intros Htok Hdd Hbad.
  assert (forall ns, parse_args (action_name c :: pre ++ tok :: post) <> Ok ns)
    as Hno.
  { intros ns Hp. destruct (parse_args_configure _ _ _ Hp) as (sub & Hsub & _).
    exact (parse_known_args_rejects _ _ _ _ _ _ _ Htok Hdd Hbad _ Hsub). }
  split; [exact Hno|]. unfold invoke.
  destruct (parse_args _) as [ns| |]; [|reflexivity..].
  destruct (Hno ns eq_refl).
Qed.

(** What a store option of [create] or [reconfigure] left in an attribute
    of a namespace that came out of the parser: the initial [None], the
    converted argument that passed the checks, or the empty list, and that
    one only when a string of the command line gives the option the
    argument [--] with an equals sign. *)
Lemma parsed_attribute c rest ns d :
  parse_args (action_name c :: rest) = Ok ns ->
  In d destinations ->
  ns !! d = Some PyNone \/
  (exists v,
      v <> "--" /\
      (d = "unit_system" -> In v ["us"; "metricwx"; "metric"]) /\
      (d = "register" -> In v ["y"; "n"]) /\
      ns !! d = Some (if String.eqb d "no_prompt" then PyBool (Str.truthy v)
                      else PyStr v)) \/
  (ns !! d = Some PyEmptyList /\
   exists tok a o,
     In tok rest /\
     parse_optional (parser_of c) tok = OptionTuple (Some a) o (Some "--") /\
     dest a = d).
Proof.
  intros Hp Hd. destruct (parse_args_configure _ _ _ Hp) as (sub & Hsub & ->).
  destruct (parse_known_args_lookup _ d _ _ _ Hsub)
    as [H|(tok & a & o & e & v & value & Htok & Hopt & Hin & Hcls & Hdest
           & Hval & He & H)].
  - left. apply lookup_union_Some_l. rewrite H.
    now apply initial_namespace_destination.
  - right.
    destruct (stored_value _ _ _ _ _ Hin Hcls Hdest Hval)
      as [[-> ->]|(Hdd & Hu & Hr & ->)].
    + right. split; [now apply lookup_union_Some_l|].
      destruct He as [->|[_ Hv]]; [eauto 6|].
      destruct (dashes_leave_extras _ _ _ Hv Hsub).
    + left. exists v. repeat split; auto. now apply lookup_union_Some_l.
Qed.

(** C7 (counterexample).  [--] is none of us, metricwx, metric, yet
    [create --units=--] parses: argparse drops the argument [--], stores an
    empty list without looking at the choices, and the engine is called
    with it. *)
Lemma C7_counterexample :
  ~ In "--" ["us"; "metricwx"; "metric"] /\
  parse_args ["create"; "--units=--"]
  = Ok (setattr (initial_namespace create_station_parser)
          "unit_system" PyEmptyList
          ∪ <["action" := PyStr "create"]> station_namespace) /\
  engine_calls (invoke (fun _ => Returns) ["create"; "--units=--"])
  = [ {| entry := weecfg_create_station;
         kwargs := [ ("config_path", PyNone); ("driver", PyNone);
                     ("location", PyNone); ("altitude", PyNone);
                     ("latitude", PyNone); ("longitude", PyNone);
                     ("register", PyNone); ("unit_system", PyEmptyList);
                     ("skin_root", PyNone); ("sqlite_root", PyNone);
                     ("html_root", PyNone); ("no_prompt", PyNone) ] |} ].
Proof.
  assert (parse_args ["create"; "--units=--"]
          = Ok (setattr (initial_namespace create_station_parser)
                  "unit_system" PyEmptyList
                  ∪ <["action" := PyStr "create"]> station_namespace)) as Hp.
  { apply (parse_args_one_explicit act_create _
             (add_argument "--units" (Some "unit_system") type_none
                (Some ["us"; "metricwx"; "metric"])) "--units" "--");
      try reflexivity. discriminate. }
  split; [simpl; intuition discriminate|]. split; [exact Hp|].
  rewrite (invoke_configure _ act_create _ _ Hp). vm_compute. reflexivity.
Qed.

(** C7 (amended).  On a [create] or [reconfigure] command line, wherever
    it stands, [--units=v] with [v] outside us, metricwx, metric, and
    [--register=v] with [v] outside y, n, make the parser exit, so the
    engine is never called, unless [v] is [--]: [--units=--] and
    [--register=--] parse and store an empty list.  Whatever form the
    options are given in, a namespace that comes out of the parser holds
    [None], one of the choices or, only when [=--] was given, the empty
    list; and an accepted [--units] value is stored under [unit_system],
    there being no attribute [units]. *)
Theorem C7_choices_are_enforced_but_for_dashes c :
  (forall engine pre v post,
      ~ In v ["us"; "metricwx"; "metric"] -> v <> "--" ->
      (forall ns,
          parse_args (action_name c :: pre ++ ("--units=" +:+ v) :: post)
          <> Ok ns) /\
      engine_calls
        (invoke engine (action_name c :: pre ++ ("--units=" +:+ v) :: post))
      = []) /\
  (forall engine pre v post,
      ~ In v ["y"; "n"] -> v <> "--" ->
      (forall ns,
          parse_args (action_name c :: pre ++ ("--register=" +:+ v) :: post)
          <> Ok ns) /\
      engine_calls
        (invoke engine (action_name c :: pre ++ ("--register=" +:+ v) :: post))
      = []) /\
  (exists ns,
      parse_args [action_name c; "--units=--"] = Ok ns /\
      ns !! "unit_system" = Some PyEmptyList) /\
  (exists ns,
      parse_args [action_name c; "--register=--"] = Ok ns /\
      ns !! "register" = Some PyEmptyList) /\
  (forall rest ns,
      parse_args (action_name c :: rest) = Ok ns ->
      (ns !! "unit_system" = Some PyNone \/
       (exists v, In v ["us"; "metricwx"; "metric"] /\
                  ns !! "unit_system" = Some (PyStr v)) \/
       (ns !! "unit_system" = Some PyEmptyList /\
        exists tok a o,
          In tok rest /\
          parse_optional (parser_of c) tok
          = OptionTuple (Some a) o (Some "--") /\
          dest a = "unit_system")) /\
      (ns !! "register" = Some PyNone \/
       (exists v, In v ["y"; "n"] /\ ns !! "register" = Some (PyStr v)) \/
       (ns !! "register" = Some PyEmptyList /\
        exists tok a o,
          In tok rest /\
          parse_optional (parser_of c) tok
          = OptionTuple (Some a) o (Some "--") /\
          dest a = "register")) /\
      ns !! "units" = None) /\
  (forall v,
      In v ["us"; "metricwx"; "metric"] ->
      exists ns,
        parse_args [action_name c; "--units=" +:+ v] = Ok ns /\
        ns !! "unit_system" = Some (PyStr v) /\
        ns !! "units" = None).
Proof.
  split; [|split; [|split; [|split; [|split]]]].
  - intros engine pre v post Hv Hdd.
    apply (invoke_rejects engine c pre _ post
             (add_argument "--units" (Some "unit_system") type_none
                (Some ["us"; "metricwx"; "metric"])) "--units" v).
    + destruct c; vm_compute; reflexivity.
    + exact Hdd.
    + exact (value_in_not_In _ _ Hv).
  - intros engine pre v post Hv Hdd.
    apply (invoke_rejects engine c pre _ post
             (add_argument "--register" None type_none (Some ["y"; "n"]))
             "--register" v).
    + destruct c; vm_compute; reflexivity.
    + exact Hdd.
    + exact (value_in_not_In _ _ Hv).
  - eexists. split.
    + apply (parse_args_one_explicit c _
               (add_argument "--units" (Some "unit_system") type_none
                  (Some ["us"; "metricwx"; "metric"])) "--units" "--"
               PyEmptyList); try reflexivity.
      * discriminate.
      * destruct c; vm_compute; reflexivity.
    + apply lookup_union_Some_l. apply lookup_insert_eq.
  - eexists. split.
    + apply (parse_args_one_explicit c _
               (add_argument "--register" None type_none (Some ["y"; "n"]))
               "--register" "--" PyEmptyList); try reflexivity.
      * discriminate.
      * destruct c; vm_compute; reflexivity.
    + apply lookup_union_Some_l. apply lookup_insert_eq.
  - intros rest ns Hp. split; [|split].
    + destruct (parsed_attribute c rest ns "unit_system" Hp)
        as [H|[(v & _ & Hu & _ & H)|H]]; [simpl; auto 20|auto| |auto].
      right. left. exists v. split; [auto|exact H].
    + destruct (parsed_attribute c rest ns "register" Hp)
        as [H|[(v & _ & _ & Hr & H)|H]]; [simpl; auto 20|auto| |auto].
      right. left. exists v. split; [auto|exact H].
    + destruct (parse_args_configure _ _ _ Hp) as (sub & Hsub & ->).
      apply lookup_union_None. split; [|vm_compute; reflexivity].
      destruct (parse_known_args_lookup _ "units" _ _ _ Hsub)
        as [H|(_ & a & _ & _ & v & value & _ & _ & Hin & Hcls & Hdest & _)].
      * rewrite H. destruct c; vm_compute; reflexivity.
      * pose proof (dest_destinations _ _ Hin Hcls) as Hd. rewrite Hdest in Hd.
        vm_compute in Hd. intuition discriminate.
  - intros v Hv. eexists. split.
    + apply (parse_args_one_explicit c _
               (add_argument "--units" (Some "unit_system") type_none
                  (Some ["us"; "metricwx"; "metric"])) "--units" v (PyStr v)).
      * discriminate.
      * destruct c; vm_compute; reflexivity.
      * reflexivity.
      * simpl in Hv. destruct Hv as [<-|[<-|[<-|[]]]]; reflexivity.
    + split; destruct c; vm_compute; reflexivity.
Qed.

Lemma truthy_not_empty s : Str.truthy s = negb (String.eqb s "").
Proof. destruct s; reflexivity. Qed.

Lemma lookup_one_option c a value d (m : Namespace) :
  dest a = d ->
  (setattr (initial_namespace (parser_of c)) (dest a) value ∪ m) !! d
  = Some value.
Proof.
  intros <-. apply lookup_union_Some_l. apply lookup_insert_eq.
Qed.

(** C8 (counterexample).  [--] is not the empty string, yet
    [create --no-prompt=--] does not give [True]: argparse drops the
    argument [--] and stores an empty list, [bool] is not called. *)
Lemma C8_counterexample :
  "--" <> "" /\
  parse_args ["create"; "--no-prompt=--"]
  = Ok (setattr (initial_namespace create_station_parser)
          "no_prompt" PyEmptyList
          ∪ <["action" := PyStr "create"]> station_namespace) /\
  (setattr (initial_namespace create_station_parser) "no_prompt" PyEmptyList
     ∪ <["action" := PyStr "create"]> station_namespace : Namespace)
    !! "no_prompt" <> Some (PyBool true).
Proof.
  split; [discriminate|]. split.
  - apply (parse_args_one_explicit act_create _
             (add_argument "--no-prompt" None type_bool None)
             "--no-prompt" "--"); try reflexivity. discriminate.
  - rewrite (lookup_one_option act_create
               (add_argument "--no-prompt" None type_bool None)
               PyEmptyList "no_prompt") by reflexivity.
    discriminate.
Qed.

(** C8 (amended).  [--no-prompt] takes a string and stores [bool] of it:
    given as [--no-prompt=s] with [s] other than [--], or as
    [--no-prompt s] when the parser takes [s] for an argument, the
    attribute [no_prompt] is [True] for every string that is not empty
    (for [False], [0] and [no] too) and [False] for the empty one;
    [--no-prompt=--] stores an empty list; [--no-prompt] with nothing
    after it is the error "expected one argument".  In every namespace
    that comes out of the parser, [no_prompt] is [None], such a [bool] or,
    only when [=--] was given, the empty list. *)
Theorem C8_no_prompt_is_bool_of_its_string_but_for_dashes c :
  (forall s,
      s <> "--" ->
      exists ns,
        parse_args [action_name c; "--no-prompt=" +:+ s] = Ok ns /\
        ns !! "no_prompt" = Some (PyBool (negb (String.eqb s "")))) /\
  (exists ns,
      parse_args [action_name c; "--no-prompt=--"] = Ok ns /\
      ns !! "no_prompt" = Some PyEmptyList) /\
  (forall s,
      parse_optional (parser_of c) s = Positional -> s <> "--" ->
      exists ns,
        parse_args [action_name c; "--no-prompt"; s] = Ok ns /\
        ns !! "no_prompt" = Some (PyBool (negb (String.eqb s "")))) /\
  (forall s,
      In s ["False"; "0"; "no"] ->
      exists ns,
        parse_args [action_name c; "--no-prompt"; s] = Ok ns /\
        ns !! "no_prompt" = Some (PyBool true)) /\
  (exists ns,
      parse_args [action_name c; "--no-prompt"; ""] = Ok ns /\
      ns !! "no_prompt" = Some (PyBool false)) /\
  parse_args [action_name c; "--no-prompt"]
  = Error (expected_one_argument
             (add_argument "--no-prompt" None type_bool None)) /\
  (forall rest ns,
      parse_args (action_name c :: rest) = Ok ns ->
      ns !! "no_prompt" = Some PyNone \/
      (exists s, ns !! "no_prompt" = Some (PyBool (negb (String.eqb s "")))) \/
      (ns !! "no_prompt" = Some PyEmptyList /\
       exists tok a o,
         In tok rest /\
         parse_optional (parser_of c) tok
         = OptionTuple (Some a) o (Some "--") /\
         dest a = "no_prompt")).
Proof.
  assert (forall s,
             parse_optional (parser_of c) s = Positional -> s <> "--" ->
             exists ns,
               parse_args [action_name c; "--no-prompt"; s] = Ok ns /\
               ns !! "no_prompt" = Some (PyBool (negb (String.eqb s ""))))
    as Hsep.
  { intros s Hs Hdd. eexists. split.
    - apply (parse_args_one_separate c _
               (add_argument "--no-prompt" None type_bool None)
               "--no-prompt" s); try reflexivity; try assumption.
      + discriminate.
      + destruct c; vm_compute; reflexivity.
    - rewrite (lookup_one_option c _ _ "no_prompt") by reflexivity.
      unfold get_value. simpl. now rewrite truthy_not_empty. }
  split; [|split; [|split; [exact Hsep|split; [|split; [|split]]]]].
  - intros s Hdd. eexists. split.
    + apply (parse_args_one_explicit c _
               (add_argument "--no-prompt" None type_bool None)
               "--no-prompt" s (PyBool (Str.truthy s))); try reflexivity.
      * discriminate.
      * destruct c; vm_compute; reflexivity.
      * now apply get_values_checked.
    + rewrite (lookup_one_option c _ _ "no_prompt") by reflexivity.
      now rewrite truthy_not_empty.
  - eexists. split.
    + apply (parse_args_one_explicit c _
               (add_argument "--no-prompt" None type_bool None)
               "--no-prompt" "--" PyEmptyList); try reflexivity.
      * discriminate.
      * destruct c; vm_compute; reflexivity.
    + now rewrite (lookup_one_option c _ _ "no_prompt") by reflexivity.
  - intros s Hs. simpl in Hs.
    destruct Hs as [<-|[<-|[<-|[]]]];
      match goal with
      | |- exists ns, parse_args [_; _; ?s] = _ /\ _ =>
          destruct (Hsep s) as (ns & Hp & Hns);
          [destruct c; vm_compute; reflexivity|discriminate|];
          exists ns; split; [exact Hp|exact Hns]
      end.
  - destruct (Hsep "") as (ns & Hp & Hns);
      [destruct c; vm_compute; reflexivity|discriminate|].
    exists ns. split; [exact Hp|exact Hns].
  - destruct c; vm_compute; reflexivity.
  - intros rest ns Hp.
    destruct (parsed_attribute c rest ns "no_prompt" Hp)
      as [H|[(v & _ & _ & _ & H)|H]]; [simpl; auto 20|auto| |auto].
    right. left. exists v. rewrite H. simpl. now rewrite truthy_not_empty.
Qed.




End Claims.

(** * Further properties of the module *)

Section HandlerFacts.
Import Argparse parse_station weectl.

(** X1.  A command line of [create] or [reconfigure] that parses leads to
    exactly one engine call, to the entry point of that action
    ([weecfg.station_config.create_station] for [create],
    [reconfigure_station] for [reconfigure]), whose twelve keywords, in
    the order of the source, carry the namespace attributes: [config_path]
    is [namespace.config], each other keyword the attribute of its own
    name.  The handler bound by the parser never fails on a missing
    attribute. *)
Theorem X1_parsed_command_line_makes_one_engine_call engine c rest ns :
  parse_args (action_name c :: rest) = Ok ns ->
  exists call,
    engine_calls (invoke engine (action_name c :: rest)) = [call] /\
    entry call = entry_of c /\
    map fst (kwargs call)
    = [ "config_path"; "driver"; "location"; "altitude"; "latitude";
        "longitude"; "register"; "unit_system"; "skin_root"; "sqlite_root";
        "html_root"; "no_prompt" ] /\
    kwarg (kwargs call) "config_path" = ns !! "config" /\
    forall d,
      In d [ "driver"; "location"; "altitude"; "latitude"; "longitude";
             "register"; "unit_system"; "skin_root"; "sqlite_root";
             "html_root"; "no_prompt" ] ->
      kwarg (kwargs call) d = ns !! d.
Proof.
  intros Hp. rewrite (invoke_configure engine _ _ _ Hp). simpl.
  eexists. split; [reflexivity|]. split; [reflexivity|].
  split; [reflexivity|]. simpl kwargs.
  destruct (parse_args_configure _ _ _ Hp) as (sub & Hsub & ->).
  assert (forall d, In d destinations ->
            Some (default PyNone
                    ((sub ∪ <["action" := PyStr (action_name c)]>
                              station_namespace) !! d))
            = (sub ∪ <["action" := PyStr (action_name c)]> station_namespace)
                !! d) as Hsome.
  { intros d Hd.
    destruct (parse_known_args_present _ _ _ _ _ Hsub Hd) as [x Hx].
    now rewrite (lookup_union_Some_l _ _ _ _ Hx). }
  split.
  - change (kwarg (forwarded_kwargs _) "config_path")
      with (Some (default PyNone
                    ((sub ∪ <["action" := PyStr (action_name c)]>
                              station_namespace) !! "config"))).
    apply Hsome. simpl. auto.
  - intros d Hd. rewrite (kwarg_forwarded _ _ Hd). apply Hsome.
    simpl in Hd. simpl. intuition auto.
Qed.

(** X1, at [create --driver=weewx.drivers.vantage]. *)
Lemma X1_witness :
  exists call,
    engine_calls
      (invoke (fun _ => Returns)
         (action_name act_create :: ["--driver=weewx.drivers.vantage"]))
    = [call] /\
    entry call = entry_of act_create /\
    map fst (kwargs call)
    = [ "config_path"; "driver"; "location"; "altitude"; "latitude";
        "longitude"; "register"; "unit_system"; "skin_root"; "sqlite_root";
        "html_root"; "no_prompt" ] /\
    kwarg (kwargs call) "config_path"
    = (setattr (initial_namespace create_station_parser)
         "driver" (PyStr "weewx.drivers.vantage")
         ∪ <["action" := PyStr "create"]> station_namespace : Namespace)
        !! "config" /\
    forall d,
      In d [ "driver"; "location"; "altitude"; "latitude"; "longitude";
             "register"; "unit_system"; "skin_root"; "sqlite_root";
             "html_root"; "no_prompt" ] ->
      kwarg (kwargs call) d
      = (setattr (initial_namespace create_station_parser)
           "driver" (PyStr "weewx.drivers.vantage")
           ∪ <["action" := PyStr "create"]> station_namespace : Namespace)
          !! d.
Proof.
  apply (X1_parsed_command_line_makes_one_engine_call (fun _ => Returns)
           act_create ["--driver=weewx.drivers.vantage"]).
  apply (parse_args_one_explicit act_create _
           (add_argument "--driver" None type_none None)
           "--driver" "weewx.drivers.vantage"); try reflexivity.
  discriminate.
Defined.

Lemma getattr_Some (ns : Namespace) x v :
  ns !! x = Some v -> getattr ns x = Val v.
Proof. unfold getattr. now intros ->. Qed.

Lemma getattr_None (ns : Namespace) x :
  ns !! x = None -> getattr ns x = Exc (OtherException "AttributeError" x).
Proof. unfold getattr. now intros ->. Qed.

(** One attribute read of a handler: the attribute is the missing one, or
    it is there and the next one is read. *)
Ltac read_attribute :=
  match goal with
  | Hs : _ :: _ = ?before ++ _ :: _,
    Hb : forall x, In x ?before -> is_Some (?ns !! x),
    Hn : _ !! _ = None |- _ =>
      destruct before as [|? before]; simpl in Hs;
      [ injection Hs as Hs _; subst;
        rewrite (getattr_None _ _ Hn); reflexivity
      | injection Hs as Hx Hs; subst;
        let v := fresh "v" in
        let Hv := fresh "Hv" in
        destruct (Hb _ (or_introl eq_refl)) as [v Hv];
        rewrite (getattr_Some _ _ _ Hv); simpl mbind;
        let Hb' := fresh "Hb" in
        assert (forall x, In x before -> is_Some (ns !! x)) as Hb'
          by (intros ? ?; apply Hb; right; assumption);
        clear Hb ]
  end.

(** X2.  The handlers read the twelve attributes in the order of their
    keywords.  On a namespace that lacks one of them (the namespace of
    [upgrade], say, which has [action] only), the first one missing raises
    [AttributeError]: the error is not caught, the engine is not called,
    nothing is written. *)
Theorem X2_missing_attribute_raises_AttributeError
    engine f (ns : Namespace) before d after :
  [ "config"; "driver"; "location"; "altitude"; "latitude"; "longitude";
    "register"; "unit_system"; "skin_root"; "sqlite_root"; "html_root";
    "no_prompt" ] = before ++ d :: after ->
  (forall x, In x before -> is_Some (ns !! x)) ->
  ns !! d = None ->
  call_handler engine f ns
  = {| calls := []; output := [];
       completion_of := Raised (OtherException "AttributeError" d) |}.
Proof.
  intros Hs Hb Hn.
  destruct f; simpl; unfold create_station, reconfigure_station;
    do 12 (try read_attribute);
    destruct before; discriminate.
Qed.

(** X2, at the namespace of [upgrade] and the attribute [config]. *)
Lemma X2_witness :
  call_handler (fun _ => Returns) create_station_fn
    {[ "action" := PyStr "upgrade" ]}
  = {| calls := []; output := [];
       completion_of := Raised (OtherException "AttributeError" "config") |}.
Proof.
  apply (X2_missing_attribute_raises_AttributeError (fun _ => Returns)
           create_station_fn {[ "action" := PyStr "upgrade" ]}
           [] "config"
           [ "driver"; "location"; "altitude"; "latitude"; "longitude";
             "register"; "unit_system"; "skin_root"; "sqlite_root";
             "html_root"; "no_prompt" ]).
  - reflexivity.
  - intros x [].
  - vm_compute. reflexivity.
Defined.

End HandlerFacts.

Section ParserFacts.
Import Argparse parse_station weectl.

(** A run of the loop that ends well on a parser without store options met
    no option of the parser. *)
Lemma run_loop_no_store items ns extras ns' extras' :
  run_loop items ns extras ns' extras' ->
  (forall s a o e, In (s, ClsO (Some a) o e) items -> cls a = HelpAction) ->
  ns' = ns /\ extras' = extras ++ map fst items.
Proof.
  induction 1 as [ns extras | s c rest ns extras ns' extras' _ _ IH
                  | s a o v value rest ns extras ns' extras' Hcls _ _ _
                  | s a o v value rest ns extras ns' extras' Hcls _ _ _ ];
    intros Hhelp.
  - now rewrite app_nil_r.
  - destruct IH as [-> ->]; [intros; eapply Hhelp; right; eauto|].
    split; [reflexivity|]. simpl. now rewrite <- app_assoc.
  - rewrite (Hhelp s a o (Some v)) in Hcls; [discriminate|now left].
  - rewrite (Hhelp s a o None) in Hcls; [discriminate|now left].
Qed.

(** X3.  [upgrade] and [upgrade-skins] take no argument at all: a command
    line of theirs that parses is the bare action name, and its namespace
    holds [action] only.  Any further string is an error, or the help. *)
Theorem X3_upgrade_takes_no_argument name rest ns :
  In name ["upgrade"; "upgrade-skins"] ->
  parse_args (name :: rest) = Ok ns ->
  rest = [] /\ ns = {[ "action" := PyStr name ]}.
Proof.
  intros Hname Hp.
  assert (In (name, upgrade_station_parser) (name_parser_map action_parser))
    as Hin.
  { simpl in Hname. destruct Hname as [<-|[<-|[]]]; simpl; auto. }
  rewrite (parse_args_action _ _ _ Hin) in Hp.
  destruct (parse_known_args upgrade_station_parser rest)
    as [[sub [|? ?]]| |] eqn:Hsub; try discriminate.
  simpl in Hp. injection Hp as <-.
  unfold parse_known_args in Hsub.
  destruct (classify upgrade_station_parser rest) as [items| |] eqn:Hitems;
    try discriminate.
  simpl in Hsub. apply consume_run_loop in Hsub.
  destruct (run_loop_no_store _ _ _ _ _ Hsub) as [-> Hextras].
  { intros s a o e Hs.
    destruct (classify_option _ _ _ _ _ _ _ Hitems Hs) as [_ Hopt].
    apply parse_optional_action in Hopt. simpl in Hopt.
    destruct Hopt as [<-|[]]. reflexivity. }
  simpl in Hextras. rewrite (classify_fst _ _ _ Hitems) in Hextras.
  subst rest. split; [reflexivity|].
  simpl in Hname. destruct Hname as [<-|[<-|[]]]; vm_compute; reflexivity.
Qed.

(** X3, at the bare [upgrade]. *)
Lemma X3_witness :
  [] = ([] : list string) /\
  ({[ "action" := PyStr "upgrade" ]} : Namespace)
  = {[ "action" := PyStr "upgrade" ]}.
Proof.
  apply (X3_upgrade_takes_no_argument "upgrade" []
           {[ "action" := PyStr "upgrade" ]}).
  - simpl. auto.
  - vm_compute. reflexivity.
Defined.

(** The first loop can only fail on an ambiguous string. *)
Lemma classify_not_Ok p args :
  (exists items, classify p args = Ok items) \/
  exists s, In s args /\ classify p args = Error (ambiguous_option s).
Proof.
  induction args as [|s args IH]; simpl; [eauto|].
  destruct (String.eqb s "--"); [eauto|].
  destruct (parse_optional p s); [| |right; eauto];
    (destruct IH as [[items ->]|(s' & Hs' & ->)];
     [left; simpl; eauto|right; simpl; eauto]).
Qed.

(** The help option in front of everything else: the parser prints the
    help, unless a later string is ambiguous. *)
Lemma help_first p flag rest :
  parse_optional p flag = OptionTuple (Some help_action) flag None ->
  flag <> "--" ->
  parse_known_args p (flag :: rest) = HelpExit \/
  exists s, In s rest /\
            parse_known_args p (flag :: rest) = Error (ambiguous_option s).
Proof.
  intros Hflag Hdd. unfold parse_known_args. simpl.
  destruct (String.eqb_spec flag "--") as [|_]; [contradiction|].
  rewrite Hflag.
  destruct (classify_not_Ok p rest) as [[items ->]|(s & Hs & ->)].
  - left. reflexivity.
  - right. exists s. split; [exact Hs|reflexivity].
Qed.

(** X4.  [-h] or [--help] right after any of the four action names never
    reaches a handler: the parser prints the help and exits (or exits on
    an ambiguous abbreviation further on), whatever else the command line
    holds, invalid values included; the engine is not called. *)
Theorem X4_help_first_never_calls_the_engine engine name flag rest :
  In name ["create"; "reconfigure"; "upgrade"; "upgrade-skins"] ->
  In flag ["-h"; "--help"] ->
  (parse_args (name :: flag :: rest) = HelpExit \/
   exists s, In s rest /\
             parse_args (name :: flag :: rest) = Error (ambiguous_option s)) /\
  engine_calls (invoke engine (name :: flag :: rest)) = [].
Proof.
  intros Hname Hflag.
  assert (exists p,
             In (name, p) (name_parser_map action_parser) /\
             parse_optional p flag = OptionTuple (Some help_action) flag None /\
             flag <> "--") as (p & Hin & Hopt & Hdd).
  { simpl in Hname, Hflag.
    destruct Hname as [<-|[<-|[<-|[<-|[]]]]];
      destruct Hflag as [<-|[<-|[]]];
      eexists; (split; [simpl; eauto 6|]);
      (split; [vm_compute; reflexivity|discriminate]). }
  assert (parse_args (name :: flag :: rest) = HelpExit \/
          exists s, In s rest /\
                    parse_args (name :: flag :: rest)
                    = Error (ambiguous_option s)) as H.
  { rewrite (parse_args_action _ _ _ Hin).
    destruct (help_first p flag rest Hopt Hdd) as [->|(s & Hs & ->)];
      [left|right; exists s; split; [exact Hs|]]; reflexivity. }
  split; [exact H|]. unfold invoke.
  destruct H as [->|(s & _ & ->)]; reflexivity.
Qed.

(** X4, at [create --help --units=bad]. *)
Lemma X4_witness :
  (parse_args ("create" :: "--help" :: ["--units=bad"]) = HelpExit \/
   exists s, In s ["--units=bad"] /\
             parse_args ("create" :: "--help" :: ["--units=bad"])
             = Error (ambiguous_option s)) /\
  engine_calls (invoke (fun _ => Returns)
                  ("create" :: "--help" :: ["--units=bad"])) = [].
Proof.
  apply (X4_help_first_never_calls_the_engine (fun _ => Returns)
           "create" "--help" ["--units=bad"]); simpl; auto.
Defined.





(** X6.  A negative number can follow its option as a string of its own:
    for the options of [create] and [reconfigure] that take a plain
    string, [--latitude -33.5] parses, and the number is stored and
    forwarded as it was given. *)
Theorem X6_negative_number_as_separate_argument engine c flag d s :
  In (flag, d)
     [ ("--driver", "driver"); ("--location", "location");
       ("--altitude", "altitude"); ("--latitude", "latitude");
       ("--longitude", "longitude"); ("--skin-root", "skin_root");
       ("--sqlite-root", "sqlite_root"); ("--html-root", "html_root") ] ->
  Str.negative_number s = true ->
  exists ns call,
    parse_args [action_name c; flag; s] = Ok ns /\
    ns !! d = Some (PyStr s) /\
    engine_calls (invoke engine [action_name c; flag; s]) = [call] /\
    kwarg (kwargs call) d = Some (PyStr s).
Proof.
  intros Hin Hneg.
  destruct (negative_number_is_argument c s Hneg) as [Hs Hdd].
  assert (parse_optional (parser_of c) flag
          = OptionTuple (Some (add_argument flag None type_none None))
              flag None /\
          dest (add_argument flag None type_none None) = d /\
          flag <> "--" /\
          In d [ "driver"; "location"; "altitude"; "latitude";
                 "longitude"; "register"; "unit_system"; "skin_root";
                 "sqlite_root"; "html_root"; "no_prompt" ])
    as (Hflag & Hdest & Hfdd & Hd).
  { simpl in Hin.
    repeat (destruct Hin as [[= <- <-]|Hin];
            [ split; [destruct c; vm_compute; reflexivity|];
              split; [reflexivity|];
              split; [discriminate|simpl; auto 20] |]).
    destruct Hin. }
  pose proof (parse_args_one_separate c _ _ _ s Hfdd Hdd Hflag Hs
                eq_refl eq_refl) as Hp.
  pose proof (lookup_one_option c (add_argument flag None type_none None)
                (PyStr s) d
                (<["action" := PyStr (action_name c)]> station_namespace)
                Hdest) as Hns.
  change (get_value (add_argument flag None type_none None) s)
    with (PyStr s) in Hp.
  match type of Hp with _ = Ok ?x => set (ns := x) in * end.
  exists ns. eexists. split; [exact Hp|]. split; [exact Hns|].
  rewrite (invoke_configure _ _ _ _ Hp). simpl.
  split; [reflexivity|]. simpl kwargs.
  now rewrite (kwarg_forwarded _ _ Hd), Hns.
Qed.

(** X6, at [create --latitude -33.5]. *)
Lemma X6_witness :
  exists ns call,
    parse_args [action_name act_create; "--latitude"; "-33.5"] = Ok ns /\
    ns !! "latitude" = Some (PyStr "-33.5") /\
    engine_calls
      (invoke (fun _ => Returns)
         [action_name act_create; "--latitude"; "-33.5"]) = [call] /\
    kwarg (kwargs call) "latitude" = Some (PyStr "-33.5").
Proof.
  apply (X6_negative_number_as_separate_argument (fun _ => Returns)
           act_create "--latitude" "latitude" "-33.5").
  - simpl. auto 20.
  - reflexivity.
Defined.

(** The last string of the command line, when it is an option with an
    explicit argument: it is the last thing the loop sees, or a [--] came
    before it. *)
Lemma classify_last p pre tok a o v items :
  parse_optional p tok = OptionTuple (Some a) o (Some v) ->
  classify p (pre ++ [tok]) = Ok items ->
  (exists items', items = items' ++ [(tok, ClsO (Some a) o (Some v))]) \/
  exists s, In (s, ClsDashes) items.
Proof.
  intros Htok. revert items.
  induction pre as [|s0 pre IH]; simpl; intros items.
  - destruct (String.eqb tok "--").
    + intros [= <-]. right. exists tok. now left.
    + rewrite Htok. simpl. intros [= <-]. left. now exists [].
  - destruct (String.eqb s0 "--").
    + intros [= <-]. right. exists s0. now left.
    + destruct (parse_optional p s0); try discriminate;
        destruct (classify p (pre ++ [tok])) as [items0| |];
        simpl; try discriminate; intros [= <-];
        (destruct (IH _ eq_refl) as [[items' ->]|[s H]];
         [ left; eexists (_ :: items'); reflexivity
         | right; exists s; now right ]).
Qed.

(** What the loop sees last wins. *)
Lemma run_loop_last items tok a o v ns extras ns' extras' :
  v <> "--" ->
  run_loop (items ++ [(tok, ClsO (Some a) o (Some v))]) ns extras ns' extras' ->
  ns' !! dest a = Some (get_value a v).
Proof.
  remember (items ++ [(tok, ClsO (Some a) o (Some v))]) as all eqn:Hall.
  intros Hdd Hrun. revert items Hall.
  induction Hrun as [| s0 c0 rest ns extras ns' extras' Hc _ IH
                     | s0 a0 o0 v0 value0 rest ns extras ns' extras' _ Hval
                         Hrun IH
                     | s0 a0 o0 v0 value0 rest ns extras ns' extras' _ _ _ IH ];
    intros items Hall.
  - destruct items; discriminate.
  - destruct items as [|i items]; simpl in Hall.
    + injection Hall as -> -> ->. now destruct (Hc a o (Some v)).
    + injection Hall as _ ->. eapply IH. reflexivity.
  - destruct items as [|i items]; simpl in Hall.
    + injection Hall as -> -> -> -> ->. inversion Hrun; subst.
      destruct (get_values_inr _ _ _ Hval) as [[? _]|(_ & _ & ->)];
        [contradiction|].
      apply lookup_insert_eq.
    + injection Hall as _ ->. eapply IH. reflexivity.
  - destruct items as [|i [|j items]]; simpl in Hall; try discriminate.
    injection Hall as _ _ ->. eapply IH. reflexivity.
Qed.

(** X7.  An option given more than once takes its last value: when the
    last string of a [create] or [reconfigure] command line that parses
    is [--opt=s], the attribute of that option is [s], whatever came
    before.  (The value [--] is left aside: argparse drops it and stores
    an empty list.) *)
Theorem X7_last_occurrence_wins c pre flag d s ns :
  In (flag, d)
     [ ("--config", "config"); ("--driver", "driver");
       ("--location", "location"); ("--altitude", "altitude");
       ("--latitude", "latitude"); ("--longitude", "longitude");
       ("--register", "register"); ("--station-url", "station_url");
       ("--units", "unit_system"); ("--skin-root", "skin_root");
       ("--sqlite-root", "sqlite_root"); ("--html-root", "html_root") ] ->
  s <> "--" ->
  parse_args (action_name c :: pre ++ [flag +:+ "=" +:+ s]) = Ok ns ->
  ns !! d = Some (PyStr s).
Proof.
  intros Hin Hdd Hp.
  assert (exists a,
             parse_optional (parser_of c) (flag +:+ "=" +:+ s)
             = OptionTuple (Some a) flag (Some s) /\
             dest a = d /\ get_value a s = PyStr s) as (a & Htok & Hdest & Hval).
  { simpl in Hin.
    repeat (destruct Hin as [[= <- <-]|Hin];
            [ eexists; split; [destruct c; vm_compute; reflexivity|];
              split; reflexivity |]).
    destruct Hin. }
  destruct (parse_args_configure _ _ _ Hp) as (sub & Hsub & ->).
  apply lookup_union_Some_l.
  unfold parse_known_args in Hsub.
  destruct (classify (parser_of c) (pre ++ [flag +:+ "=" +:+ s]))
    as [items| |] eqn:Hitems; try discriminate.
  simpl in Hsub. apply consume_run_loop in Hsub.
  destruct (classify_last _ _ _ _ _ _ _ Htok Hitems) as [[items' ->]|[s' Hs']].
  - rewrite <- Hdest, <- Hval. eapply run_loop_last; [exact Hdd|exact Hsub].
  - destruct (run_loop_no_extras _ _ _ _ Hsub _ _ Hs') as [|(? & ? & ? & ?)];
      discriminate.
Qed.

(** X7, at [create --driver=a --driver=b]. *)
Lemma X7_witness :
  (setattr (setattr (initial_namespace create_station_parser)
              "driver" (PyStr "a")) "driver" (PyStr "b")
     ∪ <["action" := PyStr "create"]> station_namespace : Namespace)
    !! "driver" = Some (PyStr "b").
Proof.
  apply (X7_last_occurrence_wins act_create ["--driver=a"]
           "--driver" "driver" "b").
  - simpl. auto 20.
  - discriminate.
  - apply parse_args_configure_Ok. unfold parse_known_args.
    eval_classify. cbn [mbind outcome_bind].
    erewrite !consume_explicit by reflexivity. reflexivity.
Defined.

(** One turn, ending well, of the loop of a parser with sub-parsers. *)
Lemma consume_sub_Ok_inv p sub s c rest ns extras ns' extras' :
  consume_sub p sub ((s, c) :: rest) ns extras = Ok (ns', extras') ->
  match c with
  | ClsO (Some a) o e =>
      cls a = StoreAction /\
      exists value rest2,
        consume_sub p sub rest2 (setattr ns (dest a) value) extras
          = Ok (ns', extras') /\
        (rest2 = rest \/ exists v, rest = (v, ClsA) :: rest2)
  | ClsO None _ _ =>
      consume_sub p sub rest ns (extras ++ [s]) = Ok (ns', extras')
  | ClsA =>
      exists more,
        call_subparsers sub s (map fst rest) ns = Ok (ns', more) /\
        extras' = extras ++ more
  | ClsDashes =>
      (rest = [] /\ extras' = extras ++ [s]) \/
      exists more,
        call_subparsers sub s (map fst rest) ns = Ok (ns', more) /\
        extras' = extras ++ more
  end.
Proof.
  destruct c as [| |[a|] o e]; simpl.
  - destruct (call_subparsers _ _ _ _) as [[ns1 more]| |]; simpl;
      try discriminate.
    intros [= <- <-]. eauto.
  - destruct rest as [|i rest].
    + intros [= <- <-]. now left.
    + destruct (call_subparsers _ _ _ _) as [[ns1 more]| |]; simpl;
        try discriminate.
      intros [= <- <-]. right. eauto.
  - destruct (cls a) eqn:Hcls.
    + destruct e as [v|].
      * rewrite (explicit_loop_store _ _ _ _ Hcls). simpl.
        unfold take_action. rewrite Hcls.
        destruct (get_values a v) as [|value]; simpl; [discriminate|].
        intros H. split; [easy|]. exists value, rest. auto.
      * rewrite Hcls. destruct rest as [|[v [| |]] rest2]; try discriminate.
        simpl. unfold take_action. rewrite Hcls.
        destruct (get_values a v) as [|value]; simpl; [discriminate|].
        intros H. split; [easy|]. exists value, rest2. eauto.
    + destruct e as [v|].
      * destruct (explicit_loop p a o v) as [|[tuples last]] eqn:Hloop;
          [discriminate|].
        destruct (explicit_loop_help _ _ _ _ _ _ Hcls Hloop) as [tl ->].
        destruct last as [a'|].
        -- destruct (cls a'); [destruct rest as [|[? [| |]] ?]|];
             try discriminate; rewrite <- app_comm_cons;
             now rewrite (take_actions_help _ _ _ _ Hcls).
        -- now rewrite (take_actions_help _ _ _ _ Hcls).
      * rewrite Hcls. simpl. unfold take_action. now rewrite Hcls.
  - auto.
Qed.

(** Extras only grow there too. *)
Lemma consume_sub_extras p sub items :
  forall ns extras ns' extras',
    consume_sub p sub items ns extras = Ok (ns', extras') ->
    exists more, extras' = extras ++ more.
Proof.
  remember (length items) as n eqn:Hn. revert items Hn.
  induction n as [n IH] using lt_wf_ind. intros items Hn ns extras ns' extras'.
  destruct items as [|[s c] rest].
  - simpl. intros [= <- <-]. exists []. now rewrite app_nil_r.
  - intros H. apply consume_sub_Ok_inv in H. simpl in Hn.
    destruct c as [| |[a|] o e].
    + destruct H as (more & _ & ->). eauto.
    + destruct H as [[_ ->]|(more & _ & ->)]; eauto.
    + destruct H as (_ & value & rest2 & Hrun & [-> | [v ->]]).
      * eapply IH; [|reflexivity|exact Hrun]. lia.
      * eapply IH; [|reflexivity|exact Hrun]. simpl in Hn. lia.
    + destruct (IH (length rest) ltac:(lia) rest eq_refl _ _ _ _ H)
        as [more ->].
      exists (s :: more). now rewrite <- app_assoc.
Qed.

Lemma lookup_parser_action name parser :
  lookup_parser (name_parser_map action_parser) name = Some parser ->
  In name ["create"; "reconfigure"; "upgrade"; "upgrade-skins"].
Proof.
  simpl.
  destruct (String.eqb_spec name "create") as [->|_]; [auto|].
  destruct (String.eqb_spec name "reconfigure") as [->|_]; [auto|].
  destruct (String.eqb_spec name "upgrade") as [->|_]; [auto|].
  destruct (String.eqb_spec name "upgrade-skins") as [->|_]; [auto 6|].
  discriminate.
Qed.

(** X8.  What follows [station] has to start with the action: a command
    line that parses is empty (the namespace then holds [action = None]
    and no handler), or its first string is one of create, reconfigure,
    upgrade, upgrade-skins.  An option in front of the action, an unknown
    action name or a leading [--] never parses. *)
Theorem X8_command_line_starts_with_the_action arg_strings ns :
  parse_args arg_strings = Ok ns ->
  (arg_strings = [] /\ ns = {[ "action" := PyNone ]}) \/
  exists name rest,
    arg_strings = name :: rest /\
    In name ["create"; "reconfigure"; "upgrade"; "upgrade-skins"].
Proof.
  unfold parse_args, parse_known_args_sub.
  destruct (help_only_classify arg_strings) as [items Hitems].
  rewrite Hitems. cbn [mbind outcome_bind].
  pose proof (classify_fst _ _ _ Hitems) as Hfst.
  destruct (consume_sub _ _ _ _ _) as [[ns1 extras]| |] eqn:Hrun;
    try discriminate.
  destruct extras as [|? ?]; simpl; try discriminate. intros [= <-].
  destruct items as [|[s c] rest]; simpl in Hfst; subst arg_strings.
  - left. split; [reflexivity|]. simpl in Hrun. injection Hrun as <-.
    vm_compute. reflexivity.
  - right. exists s, (map fst rest). split; [reflexivity|].
    pose proof (consume_sub_Ok_inv _ _ _ _ _ _ _ _ _ Hrun) as H.
    assert (forall more,
               call_subparsers action_parser s (map fst rest)
                 (parser_defaults station_parser
                    (setdefault (action_defaults station_parser ∅)
                       (sub_dest action_parser) PyNone)) = Ok (ns1, more) ->
               In s ["create"; "reconfigure"; "upgrade"; "upgrade-skins"])
      as Hcall.
    { intros more. unfold call_subparsers.
      destruct (lookup_parser _ s) eqn:Hl; [|discriminate].
      intros _. eapply lookup_parser_action, Hl. }
    destruct c as [| |[a|] o e].
    + destruct H as (more & Hc & _). eapply Hcall, Hc.
    + destruct H as [[_ He]|(more & Hc & _)]; [discriminate|].
      eapply Hcall, Hc.
    + destruct H as (Hcls & _).
      assert (In a (actions station_parser)) as Ha.
      { eapply parse_optional_action.
        eapply classify_option; [exact Hitems|now left]. }
      simpl in Ha. destruct Ha as [<-|[]]. discriminate.
    + apply consume_sub_extras in H. destruct H as [more Hm].
      destruct more; discriminate.
Qed.

(** X8, at [create]. *)
Lemma X8_witness :
  (["create"] = [] /\
   (initial_namespace create_station_parser
      ∪ <["action" := PyStr "create"]> station_namespace : Namespace)
   = {[ "action" := PyNone ]}) \/
  exists name rest,
    ["create"] = name :: rest /\
    In name ["create"; "reconfigure"; "upgrade"; "upgrade-skins"].
Proof.
  apply (X8_command_line_starts_with_the_action ["create"]).
  apply (parse_args_configure_Ok act_create []). reflexivity.
Defined.

(** The loop does not look at the namespace: an attribute that no option
    met on the way writes can be set beforehand as well as afterwards. *)
Lemma run_loop_frame k x items ns extras ns' extras' :
  run_loop items ns extras ns' extras' ->
  (forall s a o e, In (s, ClsO (Some a) o e) items -> dest a <> k) ->
  run_loop items (<[k := x]> ns) extras (<[k := x]> ns') extras'.
Proof.
  induction 1 as [| s c rest ns extras ns' extras' Hc _ IH
                  | s a o v value rest ns extras ns' extras' Hcls Hchk _ IH
                  | s a o v value rest ns extras ns' extras' Hcls Hchk _ IH ];
    intros Hk.
  - constructor.
  - apply loop_extra; [exact Hc|]. apply IH.
    intros; eapply Hk; right; eauto.
  - apply (loop_explicit _ _ _ _ value); auto. unfold setattr in *.
    rewrite insert_insert_ne by (eapply Hk; now left).
    apply IH. intros; eapply Hk; right; eauto.
  - apply (loop_next _ _ _ _ value); auto. unfold setattr in *.
    rewrite insert_insert_ne by (eapply Hk; now left).
    apply IH. intros; eapply Hk; do 2 right; eauto.
Qed.

(** The two parsers have the same options, so they read every string the
    same way. *)
Lemma classify_configure c c' rest :
  classify (parser_of c') rest = classify (parser_of c) rest.
Proof.
  assert (forall s, parse_optional (parser_of c') s
                    = parse_optional (parser_of c) s) as Hopt
    by (intros s; destruct c, c'; reflexivity).
  induction rest as [|s rest IH]; simpl; [reflexivity|].
  now rewrite Hopt, IH.
Qed.

Lemma dest_configure c a :
  In a (actions (parser_of c)) -> dest a <> "func" /\ dest a <> "action".
Proof.
  intros Hin. apply actions_configure in Hin.
  destruct Hin as [->|Hin]; [split; discriminate|].
  simpl in Hin.
  repeat (destruct Hin as [<-|Hin];
          [split; intros H; vm_compute in H; discriminate H|]).
  destruct Hin.
Qed.

(** The initial namespace of either parser: the defaults of the options
    they share, and [func]. *)
Lemma initial_namespace_configure c :
  initial_namespace (parser_of c)
  = <["func" := PyFunc (handler_of c)]>
      (action_defaults create_station_parser ∅).
Proof.
  assert (hasattr (action_defaults create_station_parser ∅) "func" = false)
    as Hfunc by (vm_compute; reflexivity).
  assert (action_defaults (parser_of c) ∅
          = action_defaults create_station_parser ∅) as Hsame
    by (unfold action_defaults; destruct c; reflexivity).
  unfold initial_namespace. rewrite Hsame.
  destruct c; unfold parser_defaults;
    cbn [defaults create_station_parser reconfigure_station_parser parser_of
         handler_of fold_left];
    unfold setdefault; rewrite Hfunc; reflexivity.
Qed.

(** X9.  [create] and [reconfigure] accept the same command lines and read
    them the same way: when one parses, so does the other, and the two
    namespaces differ in [action] and [func] only, so both handlers
    forward the same values. *)
Theorem X9_create_and_reconfigure_parse_alike c c' rest ns :
  parse_args (action_name c :: rest) = Ok ns ->
  parse_args (action_name c' :: rest)
  = Ok (<["func" := PyFunc (handler_of c')]>
          (<["action" := PyStr (action_name c')]> ns)).
Proof.
  intros Hp. destruct (parse_args_configure _ _ _ Hp) as (sub & Hsub & ->).
  assert (sub !! "action" = None) as Haction.
  { destruct (parse_known_args_lookup _ "action" _ _ _ Hsub)
      as [H|(_ & a & _ & _ & _ & _ & _ & _ & Hin & _ & Hdest & _)].
    - rewrite H. destruct c; vm_compute; reflexivity.
    - destruct (dest_configure _ _ Hin) as [_ []]. exact Hdest. }
  assert (parse_known_args (parser_of c') rest
          = Ok (<["func" := PyFunc (handler_of c')]> sub, [])) as Hsub'.
  { unfold parse_known_args in *. rewrite (classify_configure c c').
    destruct (classify (parser_of c) rest) as [items| |] eqn:Hitems;
      try discriminate.
    simpl in *. apply consume_run_loop in Hsub. apply run_loop_consume.
    rewrite (initial_namespace_configure c'),
      <- (insert_insert_eq _ "func" (PyFunc (handler_of c'))
            (PyFunc (handler_of c))),
      <- (initial_namespace_configure c).
    apply run_loop_frame; [exact Hsub|].
    intros s a o e Hin.
    destruct (classify_option _ _ _ _ _ _ _ Hitems Hin) as [_ Hopt].
    apply parse_optional_action in Hopt.
    now destruct (dest_configure _ _ Hopt). }
  rewrite (parse_args_configure_Ok _ _ _ Hsub'). f_equal.
  apply map_eq. intros k.
  destruct (decide (k = "func")) as [->|Hfunc].
  - rewrite lookup_insert_eq. apply lookup_union_Some_l, lookup_insert_eq.
  - rewrite (lookup_insert_ne _ "func") by congruence.
    destruct (decide (k = "action")) as [->|Hact].
    + rewrite lookup_insert_eq. rewrite lookup_union_r.
      * apply lookup_insert_eq.
      * now rewrite lookup_insert_ne.
    + rewrite (lookup_insert_ne _ "action") by congruence.
      rewrite !lookup_union.
      rewrite (lookup_insert_ne _ "func") by congruence.
      now rewrite !(lookup_insert_ne _ "action") by congruence.
Qed.

(** X9, from [create --location=here] to [reconfigure --location=here]. *)
Lemma X9_witness :
  parse_args (action_name act_reconfigure :: ["--location=here"])
  = Ok (<["func" := PyFunc (handler_of act_reconfigure)]>
          (<["action" := PyStr (action_name act_reconfigure)]>
             (setattr (initial_namespace create_station_parser)
                "location" (PyStr "here")
                ∪ <["action" := PyStr "create"]> station_namespace))).
Proof.
  apply (X9_create_and_reconfigure_parse_alike act_create act_reconfigure
           ["--location=here"]).
  apply (parse_args_one_explicit act_create _
           (add_argument "--location" None type_none None)
           "--location" "here"); try reflexivity.
  discriminate.
Defined.

End ParserFacts.

(** * The forms and the order of the options *)

Section OptionForms.
Import Argparse parse_station weectl.

(** The loop reads its items from left to right, looking one item ahead
    for the argument of an option: two tails that do not start with an
    argument and on which the loop agrees, whatever the namespace and
    the extras, can follow any items. *)
Lemma consume_congruence
    (R : outcome (Namespace * list string) ->
         outcome (Namespace * list string) -> Prop) p l1 l2 :
  (forall x, R x x) ->
  no_argument_first l1 -> no_argument_first l2 ->
  (forall ns extras, R (consume p l1 ns extras) (consume p l2 ns extras)) ->
  forall pre ns extras,
    R (consume p (pre ++ l1) ns extras) (consume p (pre ++ l2) ns extras).
Proof.
  intros Hrefl H1 H2 Hl pre.
  assert (forall n pre, length pre <= n ->
            forall ns extras,
              R (consume p (pre ++ l1) ns extras)
                (consume p (pre ++ l2) ns extras)) as H;
    [|now apply (H (length pre))].
  clear pre. induction n as [|n IH]; intros pre Hn ns extras.
  - destruct pre; [apply Hl|simpl in Hn; lia].
  - destruct pre as [|[s c] pre]; [apply Hl|]. simpl in Hn.
    destruct c as [| |[a|] o e]; simpl;
      try (apply IH; lia).
    destruct (match e with
              | Some explicit_arg => explicit_loop p a o explicit_arg
              | None => inr ([], Some a)
              end) as [err|[tuples [a'|]]]; [apply Hrefl| |].
    + destruct (cls a').
      * destruct pre as [|[v c'] pre]; simpl.
        -- destruct l1 as [|[? []] ?], l2 as [|[? []] ?];
             simpl in H1, H2; try contradiction; apply Hrefl.
        -- destruct c'; try apply Hrefl.
           destruct (take_actions _ ns); simpl; try apply Hrefl.
           apply IH. simpl in Hn. lia.
      * destruct (take_actions _ ns); simpl; try apply Hrefl.
        apply IH. lia.
    + destruct (take_actions _ ns); simpl; try apply Hrefl.
      apply IH. lia.
Qed.

(** The first loop on two lists of strings, the first of them without
    [--]. *)
Lemma classify_app p pre l :
  ~ In "--" pre ->
  classify p (pre ++ l)
  = (ipre ← classify p pre; il ← classify p l; Ok (ipre ++ il)).
Proof.
  induction pre as [|s pre IH]; intros Hdd; simpl.
  - now destruct (classify p l).
  - destruct (String.eqb_spec s "--") as [->|_]; [destruct Hdd; now left|].
    rewrite IH by (intros H; apply Hdd; now right).
    destruct (parse_optional p s); [| |reflexivity];
      destruct (classify p pre); simpl; try reflexivity;
      destruct (classify p l); reflexivity.
Qed.


(** How the two parsers read such an option, alone and with [=value]. *)
Lemma store_option_forms c flag d :
  In (flag, d) store_options ->
  exists a,
    cls a = StoreAction /\ dest a = d /\ flag <> "--" /\
    parse_optional (parser_of c) flag = OptionTuple (Some a) flag None /\
    forall v,
      flag +:+ "=" +:+ v <> "--" /\
      parse_optional (parser_of c) (flag +:+ "=" +:+ v)
      = OptionTuple (Some a) flag (Some v).
Proof.
  intros Hin. simpl in Hin.
  repeat (destruct Hin as [[= <- <-]|Hin];
          [ eexists; split; [|split; [|split; [discriminate|split]]];
            [ | | destruct c; vm_compute; reflexivity
              | intros v; split;
                [discriminate|destruct c; vm_compute; reflexivity] ];
            reflexivity |]).
  destruct Hin.
Qed.

(** [parse_args] of a [create] or [reconfigure] command line, from
    [parse_known_args] of the action's parser. *)
Lemma parse_args_congruence c rest rest' :
  parse_known_args (parser_of c) rest = parse_known_args (parser_of c) rest' ->
  parse_args (action_name c :: rest) = parse_args (action_name c :: rest').
Proof.
  intros H.
  rewrite !(parse_args_action _ (parser_of c)) by (destruct c; simpl; auto).
  now rewrite H.
Qed.

(** X10.  The two ways of giving a value agree: on a [create] or
    [reconfigure] command line, [--opt value] with a value that does not
    start with a dash and [--opt=value] lead to the same result, be it a
    namespace, an error or the help, whatever stands before and after
    (a [--] before them apart, which makes the rest arguments). *)
Theorem X10_separate_and_equals_forms_agree c pre flag d v post :
  In (flag, d) store_options ->
  Str.startswith v "-" = false ->
  ~ In "--" pre ->
  parse_args (action_name c :: pre ++ flag :: v :: post)
  = parse_args (action_name c :: pre ++ (flag +:+ "=" +:+ v) :: post).
Proof.
  intros Hflag Hv Hpre. apply parse_args_congruence.
  destruct (store_option_forms c _ _ Hflag)
    as (a & Hcls & _ & Hdd & Hsep & Hexp).
  destruct (Hexp v) as [Hdd' Htok].
  destruct (no_dash_is_argument (parser_of c) v Hv) as [Harg Hvdd].
  unfold parse_known_args. rewrite !classify_app by exact Hpre.
  destruct (classify (parser_of c) pre) as [ipre| |]; try reflexivity.
  simpl classify.
  destruct (String.eqb_spec flag "--") as [|_]; [contradiction|].
  destruct (String.eqb_spec v "--") as [|_]; [contradiction|].
  destruct (String.eqb_spec (flag +:+ "=" +:+ v) "--") as [|_];
    [contradiction|].
  rewrite Hsep, Harg, Htok.
  destruct (classify (parser_of c) post) as [ipost| |]; try reflexivity.
  cbn [mbind outcome_bind].
  apply (consume_congruence eq); auto; try exact I.
  intros ns extras. simpl. rewrite Hcls.
  now rewrite (explicit_loop_store _ _ _ _ Hcls).
Qed.

(** X10, at [create --driver weewx.drivers.vantage --units=us]. *)
Lemma X10_witness :
  parse_args (action_name act_create
                :: [] ++ "--driver" :: "weewx.drivers.vantage" :: ["--units=us"])
  = parse_args (action_name act_create
                  :: [] ++ ("--driver" +:+ "=" +:+ "weewx.drivers.vantage")
                  :: ["--units=us"]).
Proof.
  apply (X10_separate_and_equals_forms_agree act_create [] "--driver" "driver"
           "weewx.drivers.vantage" ["--units=us"]).
  - simpl. auto 20.
  - reflexivity.
  - intros [].
Defined.

(** Two store options with explicit arguments, to different
    destinations, in either order. *)
Lemma consume_swap p s1 a1 o1 v1 s2 a2 o2 v2 rest ns extras r :
  cls a1 = StoreAction -> cls a2 = StoreAction -> dest a1 <> dest a2 ->
  consume p ((s1, ClsO (Some a1) o1 (Some v1))
               :: (s2, ClsO (Some a2) o2 (Some v2)) :: rest) ns extras = Ok r ->
  consume p ((s2, ClsO (Some a2) o2 (Some v2))
               :: (s1, ClsO (Some a1) o1 (Some v1)) :: rest) ns extras = Ok r.
Proof.
  intros Hc1 Hc2 Hd.
  destruct (get_values a1 v1) as [e1|x1] eqn:Hv1;
    [simpl; rewrite (explicit_loop_store _ _ _ _ Hc1); simpl;
     unfold take_action; rewrite Hc1, Hv1; discriminate|].
  destruct (get_values a2 v2) as [e2|x2] eqn:Hv2;
    [rewrite (consume_explicit _ _ _ _ _ _ _ _ _ Hc1 Hv1); simpl;
     rewrite (explicit_loop_store _ _ _ _ Hc2); simpl;
     unfold take_action; rewrite Hc2, Hv2; discriminate|].
  rewrite (consume_explicit _ _ _ _ _ _ _ _ _ Hc1 Hv1),
    (consume_explicit _ _ _ _ _ _ _ _ _ Hc2 Hv2),
    (consume_explicit _ _ _ _ _ _ _ _ _ Hc2 Hv2),
    (consume_explicit _ _ _ _ _ _ _ _ _ Hc1 Hv1).
  unfold setattr. now rewrite insert_insert_ne by congruence.
Qed.

(** X11.  The order of two options does not matter: on a [create] or
    [reconfigure] command line that parses, two neighbouring
    [--opt=value] strings for different options can change places, and
    the namespace is the same. *)
Theorem X11_options_commute c pre flag1 d1 v1 flag2 d2 v2 post ns :
  In (flag1, d1) store_options ->
  In (flag2, d2) store_options ->
  d1 <> d2 ->
  parse_args (action_name c :: pre ++ (flag1 +:+ "=" +:+ v1)
                :: (flag2 +:+ "=" +:+ v2) :: post) = Ok ns ->
  parse_args (action_name c :: pre ++ (flag2 +:+ "=" +:+ v2)
                :: (flag1 +:+ "=" +:+ v1) :: post) = Ok ns.
Proof.
  intros Hflag1 Hflag2 Hd Hp.
  destruct (parse_args_configure _ _ _ Hp) as (sub & Hsub & ->).
  apply parse_args_configure_Ok.
  destruct (in_dec string_dec "--" pre) as [Hin|Hpre].
  { destruct (dashes_leave_extras _ _ _ (in_or_app _ _ _ (or_introl Hin)) Hsub). }
  destruct (store_option_forms c _ _ Hflag1) as (a1 & Hc1 & Hd1 & _ & _ & Hexp1).
  destruct (store_option_forms c _ _ Hflag2) as (a2 & Hc2 & Hd2 & _ & _ & Hexp2).
  destruct (Hexp1 v1) as [Hdd1 Htok1]. destruct (Hexp2 v2) as [Hdd2 Htok2].
  unfold parse_known_args in *. rewrite classify_app in * by exact Hpre.
  destruct (classify (parser_of c) pre) as [ipre| |]; try discriminate.
  simpl classify in *.
  destruct (String.eqb_spec (flag1 +:+ "=" +:+ v1) "--") as [|_];
    [contradiction|].
  destruct (String.eqb_spec (flag2 +:+ "=" +:+ v2) "--") as [|_];
    [contradiction|].
  rewrite Htok1, Htok2 in *.
  destruct (classify (parser_of c) post) as [ipost| |]; try discriminate.
  cbn [mbind outcome_bind] in *.
  revert Hsub. generalize (sub, @nil string).
  apply (consume_congruence (fun x y => forall r, x = Ok r -> y = Ok r));
    auto; try exact I.
  intros ns extras r. apply consume_swap; congruence.
Qed.

(** X11, from [create --driver=a --units=us] to
    [create --units=us --driver=a]. *)
Lemma X11_witness :
  parse_args (action_name act_create :: [] ++ ("--units" +:+ "=" +:+ "us")
                :: ("--driver" +:+ "=" +:+ "a") :: [])
  = Ok (setattr (setattr (initial_namespace create_station_parser)
                   "driver" (PyStr "a")) "unit_system" (PyStr "us")
          ∪ <["action" := PyStr "create"]> station_namespace).
Proof.
  apply (X11_options_commute act_create [] "--driver" "driver" "a"
           "--units" "unit_system" "us" []).
  - simpl. auto 20.
  - simpl. auto 20.
  - discriminate.
  - apply (parse_args_configure_Ok act_create). unfold parse_known_args.
    eval_classify. cbn [mbind outcome_bind].
    erewrite !consume_explicit by reflexivity. reflexivity.
Defined.


(** The prefixes of a string, one character at a time. *)
Lemma prefix_cases p c s :
  String.prefix p (String c s) = true ->
  p = "" \/ exists p', p = String c p' /\ String.prefix p' s = true.
Proof.
  destruct p as [|c' p']; [now left|]. simpl.
  destruct (ascii_dec c' c) as [->|_]; [|discriminate]. eauto.
Qed.

Lemma prefix_empty p : String.prefix p "" = true -> p = "".
Proof. now destruct p. Qed.

(** Splits a hypothesis [String.prefix p s = true] on a known [s] into the
    prefixes of [s]. *)
Ltac prefixes H :=
  repeat match type of H with
         | String.prefix _ (String _ _) = true =>
             apply prefix_cases in H;
             destruct H as [->|(? & -> & H)]
         end;
  try (apply prefix_empty in H; subst).

(** A prefix of one long option only is read as that option. *)
Lemma abbreviation_forms c opt abbr suffix :
  In opt [ "--help"; "--config"; "--driver"; "--location"; "--altitude";
           "--latitude"; "--longitude"; "--register"; "--station-url";
           "--units"; "--skin-root"; "--sqlite-root"; "--html-root";
           "--no-prompt" ] ->
  Str.startswith opt abbr = true ->
  ~ In abbr [""; "-"; "--"; "--l"; "--lo"; "--s"; "--h"] ->
  option_suffix suffix ->
  abbr +:+ suffix <> "--" /\ opt +:+ suffix <> "--" /\
  exists a e,
    parse_optional (parser_of c) (abbr +:+ suffix) = OptionTuple (Some a) opt e /\
    parse_optional (parser_of c) (opt +:+ suffix) = OptionTuple (Some a) opt e.
Proof.
  intros Hopt Hpre Hamb Hsuf. unfold Str.startswith in Hpre.
  simpl in Hopt.
  repeat (destruct Hopt as [<-|Hopt];
          [ prefixes Hpre;
            first
              [ solve [destruct Hamb; simpl; auto 10]
              | destruct Hsuf as [->|[v ->]];
                (split; [discriminate|]); (split; [discriminate|]);
                do 2 eexists; split; destruct c; vm_compute; reflexivity ] |]).
  destruct Hopt.
Qed.


(** X12.  A long option can be shortened to any prefix that no other
    option of the parser starts with ([--lat] for [--latitude], [--dr] for
    [--driver]): alone or with [=value], the shortened option leads to
    the same result as the full one. *)
Theorem X12_unambiguous_prefix_is_the_option c pre opt abbr suffix post :
  In opt [ "--help"; "--config"; "--driver"; "--location"; "--altitude";
           "--latitude"; "--longitude"; "--register"; "--station-url";
           "--units"; "--skin-root"; "--sqlite-root"; "--html-root";
           "--no-prompt" ] ->
  Str.startswith opt abbr = true ->
  ~ In abbr [""; "-"; "--"; "--l"; "--lo"; "--s"; "--h"] ->
  option_suffix suffix ->
  ~ In "--" pre ->
  parse_args (action_name c :: pre ++ (abbr +:+ suffix) :: post)
  = parse_args (action_name c :: pre ++ (opt +:+ suffix) :: post).
Proof.
  intros Hopt Habbr Hamb Hsuf Hpre. apply parse_args_congruence.
  destruct (abbreviation_forms c _ _ _ Hopt Habbr Hamb Hsuf)
    as (Hdd & Hdd' & a & e & Hshort & Hfull).
  unfold parse_known_args. rewrite !classify_app by exact Hpre.
  destruct (classify (parser_of c) pre) as [ipre| |]; try reflexivity.
  simpl classify.
  destruct (String.eqb_spec (abbr +:+ suffix) "--") as [|_]; [contradiction|].
  destruct (String.eqb_spec (opt +:+ suffix) "--") as [|_]; [contradiction|].
  rewrite Hshort, Hfull.
  destruct (classify (parser_of c) post) as [ipost| |]; try reflexivity.
  cbn [mbind outcome_bind].
  apply (consume_congruence eq); auto; exact I.
Qed.

(** X12, at [create --lat=51.5] and [create --latitude=51.5]. *)
Lemma X12_witness :
  parse_args (action_name act_create :: [] ++ ("--lat" +:+ "=51.5") :: [])
  = parse_args (action_name act_create
                  :: [] ++ ("--latitude" +:+ "=51.5") :: []).
Proof.
  apply (X12_unambiguous_prefix_is_the_option act_create [] "--latitude"
           "--lat" "=51.5" []).
  - simpl. auto 20.
  - reflexivity.
  - simpl. intuition discriminate.
  - right. exists "51.5". reflexivity.
  - intros [].
Defined.

(** The prefixes that more than one long option starts with. *)
Lemma ambiguous_forms c abbr suffix :
  In abbr ["--"; "--l"; "--lo"; "--s"; "--h"] ->
  option_suffix suffix ->
  abbr +:+ suffix <> "--" ->
  parse_optional (parser_of c) (abbr +:+ suffix) = Ambiguous.
Proof.
  intros Habbr Hsuf Hdd. simpl in Habbr.
  repeat (destruct Habbr as [<-|Habbr];
          [ destruct Hsuf as [->|[v ->]];
            first [ now destruct Hdd
                  | destruct c; vm_compute; reflexivity ] |]).
  destruct Habbr.
Qed.

(** X13.  The prefixes [--], [--l], [--lo], [--s] and [--h] fit more than
    one option.  Used as an option of [create] or [reconfigure], alone
    or with [=value], they are the error "ambiguous option", wherever
    they stand and even after [--help]: the parser looks at every string
    before it acts on any. *)
Theorem X13_ambiguous_prefix_is_an_error c pre abbr suffix post :
  In abbr ["--"; "--l"; "--lo"; "--s"; "--h"] ->
  option_suffix suffix ->
  abbr +:+ suffix <> "--" ->
  ~ In "--" pre ->
  exists s,
    In s (pre ++ [abbr +:+ suffix]) /\
    parse_args (action_name c :: pre ++ (abbr +:+ suffix) :: post)
    = Error (ambiguous_option s).
Proof.
  intros Habbr Hsuf Hdd Hpre.
  pose proof (ambiguous_forms c _ _ Habbr Hsuf Hdd) as Hamb.
  rewrite (parse_args_action _ (parser_of c)) by (destruct c; simpl; auto).
  unfold parse_known_args. rewrite classify_app by exact Hpre.
  destruct (classify_not_Ok (parser_of c) pre) as [[ipre ->]|(s & Hs & ->)].
  - exists (abbr +:+ suffix). split; [apply in_or_app; right; now left|].
    simpl classify.
    destruct (String.eqb_spec (abbr +:+ suffix) "--") as [|_]; [contradiction|].
    now rewrite Hamb.
  - exists s. split; [apply in_or_app; now left|reflexivity].
Qed.

(** X13, at [create --help --l=here]. *)
Lemma X13_witness :
  exists s,
    In s (["--help"] ++ ["--l" +:+ "=here"]) /\
    parse_args (action_name act_create :: ["--help"] ++ ("--l" +:+ "=here") :: [])
    = Error (ambiguous_option s).
Proof.
  apply (X13_ambiguous_prefix_is_an_error act_create ["--help"] "--l"
           "=here" []).
  - simpl. auto.
  - right. exists "here". reflexivity.
  - discriminate.
  - simpl. intuition discriminate.
Defined.

(** The attributes of a namespace after the action defaults: those it had
    and the destinations of the store actions. *)
Lemma action_defaults_lookup p ns k :
  is_Some (action_defaults p ns !! k) ->
  is_Some (ns !! k) \/
  exists a, In a (actions p) /\ cls a = StoreAction /\ dest a = k.
Proof.
  unfold action_defaults. generalize (actions p) as l. intros l. revert ns.
  induction l as [|a l IH]; intros ns; simpl; [now left|].
  intros H. apply IH in H.
  destruct H as [H|(a' & Hin & Ha')]; [|right; exists a'; auto].
  destruct (cls a) eqn:Hcls; [|now left].
  unfold setdefault, setattr in H. destruct (hasattr ns (dest a)); [now left|].
  destruct (decide (dest a = k)) as [Hk|Hk].
  - right. exists a. auto.
  - left. now rewrite lookup_insert_ne in H.
Qed.

(** X14.  On a [create] or [reconfigure] command line that parses, the
    parsers of the module fill fifteen attributes of the namespace,
    whatever the command line: [action] (the action name), [func] (the
    handler of the action) and the thirteen destinations of the options.
    An option never adds an attribute of another name: there is no
    [units], no [station-url]. *)
Theorem X14_namespace_has_fifteen_attributes c rest ns :
  parse_args (action_name c :: rest) = Ok ns ->
  ns !! "action" = Some (PyStr (action_name c)) /\
  ns !! "func" = Some (PyFunc (handler_of c)) /\
  forall k,
    is_Some (ns !! k) <->
    In k [ "action"; "func"; "config"; "driver"; "location"; "altitude";
           "latitude"; "longitude"; "register"; "station_url";
           "unit_system"; "skin_root"; "sqlite_root"; "html_root";
           "no_prompt" ].
Proof.
  intros Hp. destruct (parse_args_configure _ _ _ Hp) as (sub & Hsub & ->).
  assert (forall k, is_Some (sub !! k) <-> k = "func" \/ In k destinations)
    as Hdom.
  { intros k. split.
    - intros Hk.
      destruct (parse_known_args_lookup _ k _ _ _ Hsub)
        as [H|(_ & a & _ & _ & _ & _ & _ & _ & Hin & Hcls & Hdest & _)].
      + rewrite H, initial_namespace_configure in Hk.
        destruct (decide (k = "func")) as [|Hne]; [now left|].
        rewrite lookup_insert_ne in Hk by congruence.
        apply action_defaults_lookup in Hk.
        destruct Hk as [Hk|(a & Hin & Hcls & <-)].
        * rewrite lookup_empty in Hk. now destruct Hk.
        * right. apply (dest_destinations act_create); assumption.
      + right. rewrite <- Hdest. eapply dest_destinations; eassumption.
    - intros [->|Hk].
      + rewrite (parse_known_args_func _ _ _ _ Hsub). eauto.
      + eapply parse_known_args_present; eassumption. }
  assert (sub !! "action" = None) as Haction.
  { destruct (sub !! "action") eqn:H; [|reflexivity].
    destruct (proj1 (Hdom "action") (mk_is_Some _ _ H)) as [Hk|Hk];
      [discriminate|].
    exfalso. revert Hk. vm_compute. intuition discriminate. }
  split; [|split].
  - rewrite lookup_union_r by exact Haction. apply lookup_insert_eq.
  - apply lookup_union_Some_l. apply (parse_known_args_func _ _ _ _ Hsub).
  - intros k. destruct (decide (k = "action")) as [->|Hk].
    + rewrite lookup_union_r by exact Haction. rewrite lookup_insert_eq.
      split; [intros _; now left|eauto].
    + assert ((sub ∪ <["action" := PyStr (action_name c)]> station_namespace)
                !! k = sub !! k) as ->.
      { rewrite lookup_union. unfold station_namespace.
        rewrite lookup_insert_ne by congruence.
        rewrite lookup_singleton_ne by congruence.
        now destruct (sub !! k). }
      rewrite Hdom. unfold destinations. simpl. intuition congruence.
Qed.

(** X14, at the bare [create]. *)
Lemma X14_witness :
  (initial_namespace create_station_parser
     ∪ <["action" := PyStr "create"]> station_namespace : Namespace)
    !! "action" = Some (PyStr (action_name act_create)) /\
  (initial_namespace create_station_parser
     ∪ <["action" := PyStr "create"]> station_namespace : Namespace)
    !! "func" = Some (PyFunc (handler_of act_create)) /\
  forall k,
    is_Some ((initial_namespace create_station_parser
                ∪ <["action" := PyStr "create"]> station_namespace : Namespace)
               !! k) <->
    In k [ "action"; "func"; "config"; "driver"; "location"; "altitude";
           "latitude"; "longitude"; "register"; "station_url";
           "unit_system"; "skin_root"; "sqlite_root"; "html_root";
           "no_prompt" ].
Proof.
  apply (X14_namespace_has_fifteen_attributes act_create []).
  apply (parse_args_configure_Ok act_create []). reflexivity.
Defined.


(** A run that starts on an argument leaves it in the extras. *)
Lemma run_loop_leading_argument v rest ns extras ns' extras' :
  run_loop ((v, ClsA) :: rest) ns extras ns' extras' -> extras' <> [].
Proof.
  intros Hrun. inversion Hrun as [| ? ? ? ? ? ? ? _ Hrest | |]; subst.
  apply run_loop_extras in Hrest. destruct Hrest as [more ->].
  intros H. apply app_eq_nil in H. destruct H as [H _].
  apply app_eq_nil in H. destruct H as [_ [=]].
Qed.

(** An option takes one argument: of two arguments in a row, the second
    one is left in the extras. *)
Lemma run_loop_two_arguments items ns extras ns' extras' :
  run_loop items ns extras ns' extras' ->
  forall pre u v post,
    items = pre ++ (u, ClsA) :: (v, ClsA) :: post -> extras' <> [].
Proof.
  induction 1 as [| s c rest ns extras ns' extras' _ Hrun _
                  | s a o v0 value0 rest ns extras ns' extras' _ _ _ IH
                  | s a o v0 value0 rest ns extras ns' extras' _ _ Hrun IH ];
    intros pre u v post Hitems.
  - destruct pre; discriminate.
  - apply run_loop_extras in Hrun. destruct Hrun as [more ->].
    intros H. apply app_eq_nil in H. destruct H as [H _].
    apply app_eq_nil in H. destruct H as [_ [=]].
  - destruct pre as [|x pre]; [discriminate|].
    injection Hitems as _ Hrest. eapply IH, Hrest.
  - destruct pre as [|x [|y pre]]; [discriminate| |].
    + injection Hitems as _ _ Hrest. subst rest.
      eapply run_loop_leading_argument, Hrun.
    + injection Hitems as _ _ Hrest. eapply IH, Hrest.
Qed.

(** X15.  [create] and [reconfigure] take no positional argument: on a
    command line that parses, a string that does not start with a dash
    is the value of an option and stands right after a string that does
    start with one.  It never comes first, and never after another such
    string. *)
Theorem X15_values_follow_options c pre v post ns :
  parse_args (action_name c :: pre ++ v :: post) = Ok ns ->
  Str.startswith v "-" = false ->
  exists pre' flag, pre = pre' ++ [flag] /\ Str.startswith flag "-" = true.
Proof.
  intros Hp Hv. destruct (parse_args_configure _ _ _ Hp) as (sub & Hsub & _).
  destruct (no_dash_is_argument (parser_of c) v Hv) as [Harg Hvdd].
  destruct pre as [|x pre0] using rev_ind; [exfalso|clear IHpre0].
  - unfold parse_known_args in Hsub. simpl in Hsub.
    destruct (String.eqb_spec v "--") as [|_]; [contradiction|].
    rewrite Harg in Hsub.
    destruct (classify (parser_of c) post) as [ipost| |]; try discriminate.
    cbn [mbind outcome_bind] in Hsub. apply consume_run_loop in Hsub.
    now apply run_loop_leading_argument in Hsub.
  - destruct (Str.startswith x "-") eqn:Hx; [eauto|exfalso].
    destruct (no_dash_is_argument (parser_of c) x Hx) as [Hxarg Hxdd].
    rewrite <- app_assoc in Hsub. simpl in Hsub.
    destruct (in_dec string_dec "--" pre0) as [Hin|Hpre].
    { destruct (dashes_leave_extras _ _ _ (in_or_app _ _ _ (or_introl Hin))
                  Hsub). }
    unfold parse_known_args in Hsub. rewrite classify_app in Hsub by exact Hpre.
    destruct (classify (parser_of c) pre0) as [ipre| |]; try discriminate.
    simpl classify in Hsub.
    destruct (String.eqb_spec x "--") as [|_]; [contradiction|].
    destruct (String.eqb_spec v "--") as [|_]; [contradiction|].
    rewrite Hxarg, Harg in Hsub.
    destruct (classify (parser_of c) post) as [ipost| |]; try discriminate.
    cbn [mbind outcome_bind] in Hsub. apply consume_run_loop in Hsub.
    now apply (run_loop_two_arguments _ _ _ _ _ Hsub ipre x v ipost).
Qed.

(** X15, at [create --location here]. *)
Lemma X15_witness :
  exists pre' flag,
    ["--location"] = pre' ++ [flag] /\ Str.startswith flag "-" = true.
Proof.
  apply (X15_values_follow_options act_create ["--location"] "here" []
           (setattr (initial_namespace create_station_parser)
              "location" (PyStr "here")
              ∪ <["action" := PyStr "create"]> station_namespace)).
  - apply (parse_args_one_separate act_create "--location"
             (add_argument "--location" None type_none None)
             "--location" "here"); try reflexivity; discriminate.
  - reflexivity.
Defined.

(** A run that ends well met store options only. *)
Lemma run_loop_store items ns extras ns' extras' s a o e :
  run_loop items ns extras ns' extras' ->
  In (s, ClsO (Some a) o e) items -> cls a = StoreAction.
Proof.
  induction 1 as [| s0 c0 rest ns extras ns' extras' Hc _ IH
                  | s0 a0 o0 v0 value0 rest ns extras ns' extras' Hcls _ _ IH
                  | s0 a0 o0 v0 value0 rest ns extras ns' extras' Hcls _ _ IH ];
    intros Hin.
  - destruct Hin.
  - destruct Hin as [[= -> ->]|Hin]; [now destruct (Hc a o e)|auto].
  - destruct Hin as [[= <- <- <- <-]|Hin]; auto.
  - destruct Hin as [[= <- <- <- <-]|[[=]|Hin]]; auto.
Qed.

(** A string before any [--] is classified by [_parse_optional]. *)
Lemma classify_In p args items s a o e :
  classify p args = Ok items -> ~ In "--" args -> In s args ->
  parse_optional p s = OptionTuple a o e ->
  In (s, ClsO a o e) items.
Proof.
  intros Hitems Hdd Hin Hs. revert items Hitems.
  induction args as [|s0 args IH]; [destruct Hin|]. intros items. simpl.
  destruct (String.eqb_spec s0 "--") as [->|_]; [destruct Hdd; now left|].
  assert (s0 = s \/ In s args) as [->|Hin'] by exact Hin.
  - rewrite Hs. destruct (classify p args); simpl; try discriminate.
    intros [= <-]. now left.
  - destruct (parse_optional p s0); try discriminate;
      destruct (classify p args) as [items0| |]; simpl; try discriminate;
      intros [= <-]; right;
      (apply IH; [intros H; apply Hdd; now right|exact Hin'|reflexivity]).
Qed.

(** X16.  [-h] or [--help] anywhere on a [create] or [reconfigure]
    command line keeps it from being carried out: the parser prints the
    help or reports an error and exits; the engine is not called. *)
Theorem X16_help_anywhere_never_calls_the_engine engine c flag rest :
  In flag ["-h"; "--help"] ->
  In flag rest ->
  (forall ns, parse_args (action_name c :: rest) <> Ok ns) /\
  engine_calls (invoke engine (action_name c :: rest)) = [].
Proof.
  intros Hflag Hin.
  assert (forall ns, parse_args (action_name c :: rest) <> Ok ns) as Hno.
  { intros ns Hp. destruct (parse_args_configure _ _ _ Hp) as (sub & Hsub & _).
    destruct (in_dec string_dec "--" rest) as [Hdd|Hdd];
      [exact (dashes_leave_extras _ _ _ Hdd Hsub)|].
    unfold parse_known_args in Hsub.
    destruct (classify (parser_of c) rest) as [items| |] eqn:Hitems;
      try discriminate.
    simpl in Hsub. apply consume_run_loop in Hsub.
    assert (parse_optional (parser_of c) flag
            = OptionTuple (Some help_action) flag None) as Hopt.
    { simpl in Hflag.
      destruct Hflag as [<-|[<-|[]]]; destruct c; vm_compute; reflexivity. }
    pose proof (classify_In _ _ _ _ _ _ _ Hitems Hdd Hin Hopt) as Hitem.
    pose proof (run_loop_store _ _ _ _ _ _ _ _ _ Hsub Hitem) as Hcls.
    discriminate Hcls. }
  split; [exact Hno|]. unfold invoke.
  destruct (parse_args _) as [ns| |]; [|reflexivity..].
  destruct (Hno ns eq_refl).
Qed.

(** X16, at [create --driver=x --help]. *)
Lemma X16_witness :
  (forall ns,
      parse_args (action_name act_create :: ["--driver=x"; "--help"])
      <> Ok ns) /\
  engine_calls
    (invoke (fun _ => Returns)
       (action_name act_create :: ["--driver=x"; "--help"])) = [].
Proof.
  apply (X16_help_anywhere_never_calls_the_engine (fun _ => Returns)
           act_create "--help" ["--driver=x"; "--help"]).
  - simpl. auto.
  - simpl. auto.
Defined.

End OptionForms.
